(** * vue-virtual-scroller: the windowing computation of [useVirtualScroller]

    A shallow embedding of the composable [useVirtualScroller] and the
    properties of the index window and the two spacers it derives from the
    scroll position.

    JavaScript numbers appear twice.  [number] holds exact rationals extended
    with [Infinity], [-Infinity] and [NaN]: the program's arithmetic with the
    rounding of binary64 left out (and the sign of zero: a zero divisor is
    read as [+0]).  [Double] evaluates the same expressions in binary64.

    Rounding changes a quotient, a product or a sum by a relative 2^-53, which
    moves the floor of a quotient that lies within that distance of an item
    boundary.  Statements that depend on the exact position of such a
    boundary are therefore made at whole-pixel inputs of magnitude up to
    2^53: there every integer, sum, difference and product is a binary64
    number, and [rounded_quotient_floor_ceiling] shows that the floor and the
    ceiling of a rounded quotient are those of the exact one. *)

From Stdlib Require Import String ZArith QArith Qround Qminmax Qabs List Lia.
From Stdlib Require Import Bool.
From Stdlib Require Import PrimFloat.
Import ListNotations.

Open Scope Z_scope.

(** ** JavaScript numbers *)

Inductive number : Type :=
| Num (q : Q)
| Infinity
| NegInfinity
| NaN.

Definition of_Z (z : Z) : number := Num (inject_Z z).

Module JS.

(** [a / b] *)
Definition div (a b : number) : number :=
  match a, b with
  | NaN, _ | _, NaN => NaN
  | Num x, Num y =>
      match (y ?= 0)%Q with
      | Eq => match (x ?= 0)%Q with
              | Eq => NaN
              | Gt => Infinity
              | Lt => NegInfinity
              end
      | _ => Num (x / y)
      end
  | Num _, _ => Num 0
  | Infinity, Num y =>
      match (y ?= 0)%Q with Lt => NegInfinity | _ => Infinity end
  | NegInfinity, Num y =>
      match (y ?= 0)%Q with Lt => Infinity | _ => NegInfinity end
  | _, _ => NaN
  end.

(** [a * b] *)
Definition mul (a b : number) : number :=
  match a, b with
  | NaN, _ | _, NaN => NaN
  | Num x, Num y => Num (x * y)
  | Num x, Infinity | Infinity, Num x =>
      match (x ?= 0)%Q with
      | Eq => NaN
      | Gt => Infinity
      | Lt => NegInfinity
      end
  | Num x, NegInfinity | NegInfinity, Num x =>
      match (x ?= 0)%Q with
      | Eq => NaN
      | Gt => NegInfinity
      | Lt => Infinity
      end
  | Infinity, Infinity | NegInfinity, NegInfinity => Infinity
  | _, _ => NegInfinity
  end.

(** [a + b] *)
Definition add (a b : number) : number :=
  match a, b with
  | NaN, _ | _, NaN => NaN
  | Num x, Num y => Num (x + y)
  | Infinity, NegInfinity | NegInfinity, Infinity => NaN
  | Infinity, _ | _, Infinity => Infinity
  | _, _ => NegInfinity
  end.

(** [a - b] *)
Definition sub (a b : number) : number :=
  match a, b with
  | NaN, _ | _, NaN => NaN
  | Num x, Num y => Num (x - y)
  | Infinity, Infinity | NegInfinity, NegInfinity => NaN
  | Infinity, _ | _, NegInfinity => Infinity
  | _, _ => NegInfinity
  end.

(** [a <= b] *)
Definition leb (a b : number) : bool :=
  match a, b with
  | NaN, _ | _, NaN => false
  | Num x, Num y => Qle_bool x y
  | NegInfinity, _ | _, Infinity => true
  | _, _ => false
  end.

(** [a === b] *)
Definition eqb (a b : number) : bool :=
  match a, b with
  | Num x, Num y => Qeq_bool x y
  | Infinity, Infinity | NegInfinity, NegInfinity => true
  | _, _ => false
  end.

End JS.

Declare Scope js_scope.
Delimit Scope js_scope with js.
Bind Scope js_scope with number.
Notation "a / b" := (JS.div a b) : js_scope.
Notation "a * b" := (JS.mul a b) : js_scope.
Notation "a + b" := (JS.add a b) : js_scope.
Notation "a - b" := (JS.sub a b) : js_scope.
Notation "a <=? b" := (JS.leb a b) : js_scope.
Notation "a =? b" := (JS.eqb a b) : js_scope.

Module Math.

Definition floor (a : number) : number :=
  match a with
  | Num q => of_Z (Qfloor q)
  | _ => a
  end.

Definition ceil (a : number) : number :=
  match a with
  | Num q => of_Z (Qceiling q)
  | _ => a
  end.

Definition max (a b : number) : number :=
  match a, b with
  | NaN, _ | _, NaN => NaN
  | Infinity, _ | _, Infinity => Infinity
  | NegInfinity, c | c, NegInfinity => c
  | Num x, Num y => Num (Qmax x y)
  end.

Definition min (a b : number) : number :=
  match a, b with
  | NaN, _ | _, NaN => NaN
  | NegInfinity, _ | _, NegInfinity => NegInfinity
  | Infinity, c | c, Infinity => c
  | Num x, Num y => Num (Qmin x y)
  end.

End Math.

(** ** Arrays: [length] and [Array.prototype.slice] *)

Section Arrays.

Context {T : Type}.

Definition array_length (l : list T) : number := of_Z (Z.of_nat (length l)).

(** Truncation toward zero, the finite case of [ToIntegerOrInfinity]. *)
Definition Qtruncate (q : Q) : Z := Z.quot (Qnum q) (Zpos (Qden q)).

(** The clamping of a [slice] argument against the array's length. *)
Definition relativeIndex (n : number) (len : Z) : Z :=
  match n with
  | NaN | NegInfinity => 0
  | Infinity => len
  | Num q =>
      let r := Qtruncate q in
      if r <? 0 then Z.max (len + r) 0 else Z.min r len
  end.

Definition slice (l : list T) (a b : number) : list T :=
  let len := Z.of_nat (length l) in
  let k := relativeIndex a len in
  let final := relativeIndex b len in
  firstn (Z.to_nat (Z.max (final - k) 0)) (skipn (Z.to_nat k) l).

End Arrays.

(** ** The composable *)

(** The scroll surface, as far as the composable reads and writes it. *)
Module Element.
Record t : Type := mk { scrollTop : number; clientHeight : number }.
End Element.

(** [UseVirtualScrollerOptions<T>]; [overscan] is optional. *)
Module Options.
Record t (T : Type) : Type := mk {
  items : list T;
  containerRef : option Element.t;
  itemHeight : number;
  overscan : option number
}.
Arguments mk {T}.
Arguments items {T}.
Arguments containerRef {T}.
Arguments itemHeight {T}.
Arguments overscan {T}.
End Options.

(** What a call leaves behind: a value, or an exception. *)
Inductive completion (A : Type) : Type :=
| Normal (a : A)
| Throw (msg : string).
Arguments Normal {A}.
Arguments Throw {A}.

(** The variables the closures of [useVirtualScroller] share: the destructured
    options, the value of the caller's [containerRef], and the two refs. *)
Record Scroller (T : Type) : Type := mkScroller {
  items : list T;
  containerRef : option Element.t;
  itemHeight : number;
  overscan : number;
  scrollTop : number;
  containerHeight : number
}.
Arguments mkScroller {T}.
Arguments items {T}.
Arguments containerRef {T}.
Arguments itemHeight {T}.
Arguments overscan {T}.
Arguments scrollTop {T}.
Arguments containerHeight {T}.

Section UseVirtualScroller.

Context {T : Type}.

Local Open Scope js_scope.

(** The body of [useVirtualScroller] up to its [return]: default of
    [overscan], both refs at 0.  No statement of it throws. *)
Definition useVirtualScroller (o : Options.t T) : completion (Scroller T) :=
  Normal {|
    items := Options.items o;
    containerRef := Options.containerRef o;
    itemHeight := Options.itemHeight o;
    overscan := match Options.overscan o with
                | Some n => n
                | None => of_Z 2
                end;
    scrollTop := of_Z 0;
    containerHeight := of_Z 0
  |}.

Definition visibleCount (s : Scroller T) : number :=
  Math.ceil (containerHeight s / itemHeight s).

Definition startIndex (s : Scroller T) : number :=
  Math.max (of_Z 0) (Math.floor (scrollTop s / itemHeight s) - overscan s).

Definition endIndex (s : Scroller T) : number :=
  Math.min
    (array_length (items s))
    (startIndex s + visibleCount s + overscan s * of_Z 2).

Definition visibleItems (s : Scroller T) : list T :=
  slice (items s) (startIndex s) (endIndex s).

Definition paddingTop (s : Scroller T) : number :=
  startIndex s * itemHeight s.

Definition paddingBottom (s : Scroller T) : number :=
  (array_length (items s) - endIndex s) * itemHeight s.

Definition set_scrollTop (s : Scroller T) (v : number) : Scroller T :=
  {| items := items s; containerRef := containerRef s;
     itemHeight := itemHeight s; overscan := overscan s;
     scrollTop := v; containerHeight := containerHeight s |}.

Definition set_containerHeight (s : Scroller T) (v : number) : Scroller T :=
  {| items := items s; containerRef := containerRef s;
     itemHeight := itemHeight s; overscan := overscan s;
     scrollTop := scrollTop s; containerHeight := v |}.

Definition set_containerRef (s : Scroller T) (r : option Element.t)
  : Scroller T :=
  {| items := items s; containerRef := r;
     itemHeight := itemHeight s; overscan := overscan s;
     scrollTop := scrollTop s; containerHeight := containerHeight s |}.

Definition onScroll (s : Scroller T) : Scroller T :=
  match containerRef s with
  | Some el => set_scrollTop s (Element.scrollTop el)
  | None => s
  end.

Definition onResize (s : Scroller T) : Scroller T :=
  match containerRef s with
  | Some el => set_containerHeight s (Element.clientHeight el)
  | None => s
  end.

(** [containerRef.value.scrollTop = index * itemHeight], a plain property
    assignment on the surface. *)
Definition scrollToIndex (s : Scroller T) (index : number) : Scroller T :=
  match containerRef s with
  | Some el =>
      set_containerRef s
        (Some {| Element.scrollTop := index * itemHeight s;
                 Element.clientHeight := Element.clientHeight el |})
  | None => s
  end.

(** The [onMounted] hook; the listener registrations are not modelled. *)
Definition onMounted (s : Scroller T) : Scroller T :=
  match containerRef s with
  | Some el => set_containerHeight s (Element.clientHeight el)
  | None => s
  end.

(** The [watch] callback on [containerRef], after the ref took [newEl]. *)
Definition watchContainerRef (s : Scroller T) (newEl : option Element.t)
  : Scroller T :=
  match newEl with
  | Some el =>
      set_containerHeight (set_containerRef s newEl) (Element.clientHeight el)
  | None => set_containerRef s newEl
  end.

End UseVirtualScroller.

(** The scroller at finite inputs: the items [l], item height [h], overscan
    [o], and the refs holding scroll offset [top] and viewport size [size]. *)
Definition window {T : Type} (l : list T) (r : option Element.t)
  (h : Q) (o : Z) (top size : Q) : Scroller T :=
  {| items := l; containerRef := r;
     itemHeight := Num h; overscan := of_Z o;
     scrollTop := Num top; containerHeight := Num size |}.

(** ** Reading a number as a rational or an integer *)

(** [is_num a q]: [a] is finite, of value [q]. *)
Definition is_num (a : number) (q : Q) : Prop :=
  match a with
  | Num p => p == q
  | _ => False
  end.

(** [is_int a z]: [a] is the integer [z]. *)
Definition is_int (a : number) (z : Z) : Prop := is_num a (inject_Z z).

(** The integers the three index computations come to, for a finite scroll
    offset and viewport size and a positive item height. *)
Definition startZ (h : Q) (o : Z) (top : Q) : Z :=
  Z.max 0 (Qfloor (top / h) - o).

Definition countZ (h size : Q) : Z := Qceiling (size / h).

Definition endZ {T : Type} (l : list T) (h : Q) (o : Z) (top size : Q) : Z :=
  Z.min (Z.of_nat (length l)) (startZ h o top + countZ h size + o * 2).

(** ** Listener registration

    The hooks of the composable register its two closures on the surface and
    on [window].  Elements are objects with an identity, so they live in a
    store and [containerRef] holds a position in it. *)

Module Dom.

(** What a target's listener list can hold: the two closures of the
    composable, and the listeners of other code. *)
Inductive callback : Type :=
| OnScroll
| OnResize
| Foreign (n : nat).

Definition callback_eq_dec (a b : callback) : {a = b} + {a <> b}.
Proof. decide equality. apply Nat.eq_dec. Defined.

(** [addEventListener]: a callback that is registered is not added again. *)
Definition addEventListener (c : callback) (ls : list callback)
  : list callback :=
  if in_dec callback_eq_dec c ls then ls else ls ++ [c].

Definition removeEventListener (c : callback) (ls : list callback)
  : list callback :=
  remove callback_eq_dec c ls.

(** An element: its two layout properties and its ['scroll'] listeners. *)
Record node : Type := mkNode { element : Element.t; scroll : list callback }.

Definition listens (c : callback) (ls : list callback) : bool :=
  if in_dec callback_eq_dec c ls then true else false.

Fixpoint update (i : nat) (f : node -> node) (ns : list node) : list node :=
  match ns, i with
  | [], _ => []
  | n :: rest, O => f n :: rest
  | n :: rest, S j => n :: update j f rest
  end.

End Dom.

Module Page.

(** The store of elements, the ['resize'] listeners of [window], the value of
    [containerRef] and the variables of the closure. *)
Record t (T : Type) : Type := mk {
  nodes : list Dom.node;
  resize : list Dom.callback;
  containerRef : option nat;
  items : list T;
  itemHeight : number;
  overscan : number;
  scrollTop : number;
  containerHeight : number
}.
Arguments mk {T}.
Arguments nodes {T}.
Arguments resize {T}.
Arguments containerRef {T}.
Arguments items {T}.
Arguments itemHeight {T}.
Arguments overscan {T}.
Arguments scrollTop {T}.
Arguments containerHeight {T}.

Section Hooks.

Context {T : Type}.

Local Open Scope js_scope.

Definition set_nodes (p : t T) (ns : list Dom.node) : t T :=
  mk ns (resize p) (containerRef p) (items p) (itemHeight p) (overscan p)
     (scrollTop p) (containerHeight p).

Definition set_resize (p : t T) (ls : list Dom.callback) : t T :=
  mk (nodes p) ls (containerRef p) (items p) (itemHeight p) (overscan p)
     (scrollTop p) (containerHeight p).

Definition set_containerRef (p : t T) (r : option nat) : t T :=
  mk (nodes p) (resize p) r (items p) (itemHeight p) (overscan p)
     (scrollTop p) (containerHeight p).

Definition set_scrollTop (p : t T) (v : number) : t T :=
  mk (nodes p) (resize p) (containerRef p) (items p) (itemHeight p)
     (overscan p) v (containerHeight p).

Definition set_containerHeight (p : t T) (v : number) : t T :=
  mk (nodes p) (resize p) (containerRef p) (items p) (itemHeight p)
     (overscan p) (scrollTop p) v.

(** [containerRef.value], dereferenced. *)
Definition current (p : t T) : option Dom.node :=
  match containerRef p with
  | Some i => nth_error (nodes p) i
  | None => None
  end.

Definition add_scroll (c : Dom.callback) (n : Dom.node) : Dom.node :=
  Dom.mkNode (Dom.element n) (Dom.addEventListener c (Dom.scroll n)).

Definition remove_scroll (c : Dom.callback) (n : Dom.node) : Dom.node :=
  Dom.mkNode (Dom.element n) (Dom.removeEventListener c (Dom.scroll n)).

Definition onScroll (p : t T) : t T :=
  match current p with
  | Some n => set_scrollTop p (Element.scrollTop (Dom.element n))
  | None => p
  end.

Definition onResize (p : t T) : t T :=
  match current p with
  | Some n => set_containerHeight p (Element.clientHeight (Dom.element n))
  | None => p
  end.

Definition scrollToIndex (p : t T) (index : number) : t T :=
  match containerRef p with
  | Some i =>
      set_nodes p
        (Dom.update i
           (fun n =>
              Dom.mkNode
                (Element.mk (index * itemHeight p)
                            (Element.clientHeight (Dom.element n)))
                (Dom.scroll n))
           (nodes p))
  | None => p
  end.

Definition onMounted (p : t T) : t T :=
  match containerRef p, current p with
  | Some i, Some n =>
      let p1 := set_containerHeight p (Element.clientHeight (Dom.element n)) in
      let p2 :=
        set_nodes p1 (Dom.update i (add_scroll Dom.OnScroll) (nodes p1)) in
      set_resize p2 (Dom.addEventListener Dom.OnResize (resize p2))
  | _, _ => p
  end.

Definition onUnmounted (p : t T) : t T :=
  match containerRef p with
  | Some i =>
      let p1 :=
        set_nodes p (Dom.update i (remove_scroll Dom.OnScroll) (nodes p)) in
      set_resize p1 (Dom.removeEventListener Dom.OnResize (resize p1))
  | None => p
  end.

(** The callback given to [watch], called with the new and the old value of
    [containerRef]. *)
Definition watchCallback (p : t T) (newEl oldEl : option nat) : t T :=
  let p1 :=
    match oldEl with
    | Some j =>
        set_nodes p (Dom.update j (remove_scroll Dom.OnScroll) (nodes p))
    | None => p
    end in
  match newEl with
  | Some i =>
      match nth_error (nodes p1) i with
      | Some n =>
          let p2 :=
            set_containerHeight p1 (Element.clientHeight (Dom.element n)) in
          set_nodes p2 (Dom.update i (add_scroll Dom.OnScroll) (nodes p2))
      | None => p1
      end
  | None => p1
  end.

(** Whether two values of [containerRef] are the same element. *)
Definition same_element (a b : option nat) : bool :=
  match a, b with
  | Some i, Some j => Nat.eqb i j
  | None, None => true
  | _, _ => false
  end.

(** The caller assigns [containerRef]; when the value changes the watcher
    runs its callback. *)
Definition assignContainerRef (p : t T) (newEl : option nat) : t T :=
  if same_element newEl (containerRef p) then p
  else watchCallback (set_containerRef p newEl) newEl (containerRef p).

(** A ['scroll'] event on element [i], and a ['resize'] event on [window]:
    the registered closures run. *)
Definition scrollEvent (p : t T) (i : nat) : t T :=
  match nth_error (nodes p) i with
  | Some n => if Dom.listens Dom.OnScroll (Dom.scroll n) then onScroll p else p
  | None => p
  end.

Definition resizeEvent (p : t T) : t T :=
  if Dom.listens Dom.OnResize (resize p) then onResize p else p.

(** The surface [i] is scrolled to [v], or laid out anew with height [v],
    and the event follows. *)
Definition userScroll (p : t T) (i : nat) (v : number) : t T :=
  scrollEvent
    (set_nodes p
       (Dom.update i
          (fun n =>
             Dom.mkNode
               (Element.mk v (Element.clientHeight (Dom.element n)))
               (Dom.scroll n))
          (nodes p)))
    i.

Definition layoutResize (p : t T) (i : nat) (v : number) : t T :=
  resizeEvent
    (set_nodes p
       (Dom.update i
          (fun n =>
             Dom.mkNode
               (Element.mk (Element.scrollTop (Dom.element n)) v)
               (Dom.scroll n))
          (nodes p))).

(** The ['scroll'] listeners of element [k]. *)
Definition scrollListeners (p : t T) (k : nat) : list Dom.callback :=
  match nth_error (nodes p) k with
  | Some n => Dom.scroll n
  | None => []
  end.

(** The closure's variables as a [Scroller], the element read through the
    reference. *)
Definition view (p : t T) : Scroller T :=
  mkScroller (items p) (option_map Dom.element (current p))
             (itemHeight p) (overscan p) (scrollTop p) (containerHeight p).

End Hooks.

End Page.

(** ** The window in binary64

    The same five computations over the kernel's binary64 numbers, every
    operation rounded as the program's are.  [Double] is what the program
    computes; the exact model above leaves the rounding out. *)

Module Double.

Local Open Scope float_scope.

Definition two52 : float := 0x1p+52.

(** The integer nearest to [a], for 0 <= a < 2^52. *)
Definition nearest (a : float) : float := (a + two52) - two52.

(** [Math.floor] *)
Definition floor (x : float) : float :=
  if two52 <=? abs x then x
  else if x <? 0 then
    let a := abs x in
    let t := nearest a in
    - (if t <? a then t + 1 else t)
  else
    let t := nearest x in
    if x <? t then t - 1 else t.

(** [Math.ceil] *)
Definition ceil (x : float) : float :=
  if two52 <=? abs x then x
  else if x <? 0 then
    let a := abs x in
    let t := nearest a in
    - (if a <? t then t - 1 else t)
  else
    let t := nearest x in
    if t <? x then t + 1 else t.

(** [Math.max] and [Math.min]; of two zeros the positive one is the larger. *)
Definition max (a b : float) : float :=
  if is_nan a || is_nan b then nan
  else if a <? b then b
  else if b <? a then a
  else if is_zero a then a + b
  else a.

Definition min (a b : float) : float :=
  if is_nan a || is_nan b then nan
  else if a <? b then a
  else if b <? a then b
  else if is_zero a then - (- a + - b)
  else a.

(** An integer as a binary64 number; exact up to 2^53. *)
Fixpoint of_pos (p : positive) : float :=
  match p with
  | xH => 1
  | xO q => 2 * of_pos q
  | xI q => 2 * of_pos q + 1
  end.

Definition of_Z (z : Z) : float :=
  match z with
  | Z0 => 0
  | Zpos p => of_pos p
  | Zneg p => - of_pos p
  end.

(** The numbers the window is computed from: [items.length], the two
    options and the two refs. *)
Record t : Type := mk {
  length : nat;
  itemHeight : float;
  overscan : float;
  scrollTop : float;
  containerHeight : float
}.

Definition visibleCount (s : t) : float :=
  ceil (containerHeight s / itemHeight s).

Definition startIndex (s : t) : float :=
  max 0 (floor (scrollTop s / itemHeight s) - overscan s).

Definition endIndex (s : t) : float :=
  min (of_Z (Z.of_nat (length s)))
      (startIndex s + visibleCount s + overscan s * 2).

Definition paddingTop (s : t) : float := startIndex s * itemHeight s.

Definition paddingBottom (s : t) : float :=
  (of_Z (Z.of_nat (length s)) - endIndex s) * itemHeight s.

End Double.

(** Up to this bound every integer is a binary64 number, and sums, differences
    and products of integers that stay within it are exact. *)
Definition exact_limit : Z := 2 ^ 53.

(** The relative error of one binary64 operation rounded to nearest is at
    most 2^-53. *)
Definition unit_roundoff : Q := 1 / inject_Z exact_limit.

(** The scroller at whole-pixel inputs. *)
Definition window_px {T : Type} (l : list T) (r : option Element.t)
  (h o top size : Z) : Scroller T :=
  window l r (inject_Z h) o (inject_Z top) (inject_Z size).

Section NumberFacts.

Local Open Scope Q_scope.

Lemma is_num_Num (q : Q) : is_num (Num q) q.
Proof. simpl. reflexivity. Qed.

Lemma is_int_of_Z (z : Z) : is_int (of_Z z) z.
Proof. apply is_num_Num. Qed.

Lemma is_num_eq (a : number) (p q : Q) : is_num a p -> p == q -> is_num a q.
Proof.
  destruct a; simpl; try contradiction.
  intros H1 H2. rewrite H1. exact H2.
Qed.

Lemma is_num_add (a b : number) (p q : Q) :
  is_num a p -> is_num b q -> is_num (a + b)%js (p + q).
Proof.
  destruct a, b; simpl; try contradiction.
  intros -> ->. reflexivity.
Qed.

Lemma is_num_sub (a b : number) (p q : Q) :
  is_num a p -> is_num b q -> is_num (a - b)%js (p - q).
Proof.
  destruct a, b; simpl; try contradiction.
  intros -> ->. reflexivity.
Qed.

Lemma is_num_mul (a b : number) (p q : Q) :
  is_num a p -> is_num b q -> is_num (a * b)%js (p * q).
Proof.
  destruct a, b; simpl; try contradiction.
  intros -> ->. reflexivity.
Qed.

Lemma is_num_div (a b : number) (p q : Q) :
  is_num a p -> is_num b q -> ~ q == 0 -> is_num (a / b)%js (p / q).
Proof.
  destruct a as [x| | |], b as [y| | |]; simpl; try contradiction.
  intros Hx Hy Hq.
  destruct (Qcompare_spec y 0) as [E|L|G]; simpl.
  - exfalso. apply Hq. rewrite <- Hy. exact E.
  - rewrite Hx, Hy. reflexivity.
  - rewrite Hx, Hy. reflexivity.
Qed.

Lemma is_int_floor (a : number) (p : Q) :
  is_num a p -> is_int (Math.floor a) (Qfloor p).
Proof.
  destruct a; simpl; try contradiction.
  intros ->. apply is_int_of_Z.
Qed.

Lemma is_int_ceil (a : number) (p : Q) :
  is_num a p -> is_int (Math.ceil a) (Qceiling p).
Proof.
  destruct a; simpl; try contradiction.
  intros ->. apply is_int_of_Z.
Qed.

Lemma is_num_max (a b : number) (p q : Q) :
  is_num a p -> is_num b q -> is_num (Math.max a b) (Qmax p q).
Proof.
  destruct a, b; simpl; try contradiction.
  intros -> ->. reflexivity.
Qed.

Lemma is_num_min (a b : number) (p q : Q) :
  is_num a p -> is_num b q -> is_num (Math.min a b) (Qmin p q).
Proof.
  destruct a, b; simpl; try contradiction.
  intros -> ->. reflexivity.
Qed.

Lemma leb_num (a b : number) (p q : Q) :
  is_num a p -> is_num b q -> ((a <=? b)%js = true <-> p <= q).
Proof.
  destruct a, b; simpl; try contradiction.
  intros -> ->. apply Qle_bool_iff.
Qed.

Lemma eqb_num (a b : number) (p q : Q) :
  is_num a p -> is_num b q -> ((a =? b)%js = true <-> p == q).
Proof.
  destruct a, b; simpl; try contradiction.
  intros -> ->. apply Qeq_bool_iff.
Qed.

Lemma leb_int (a b : number) (x y : Z) :
  is_int a x -> is_int b y -> ((a <=? b)%js = true <-> (x <= y)%Z).
Proof.
  intros Ha Hb. rewrite (leb_num a b _ _ Ha Hb), <- Zle_Qle. reflexivity.
Qed.

Lemma eqb_int (a b : number) (x y : Z) :
  is_int a x -> is_int b y -> ((a =? b)%js = true <-> x = y).
Proof.
  intros Ha Hb. rewrite (eqb_num a b _ _ Ha Hb). apply inject_Z_injective.
Qed.

Lemma Qmax_inject_Z (x y : Z) :
  Qmax (inject_Z x) (inject_Z y) == inject_Z (Z.max x y).
Proof.
  destruct (Z.max_spec x y) as [[Hlt ->]|[Hle ->]].
  - apply Q.max_r. rewrite <- Zle_Qle. lia.
  - apply Q.max_l. rewrite <- Zle_Qle. lia.
Qed.

Lemma Qmin_inject_Z (x y : Z) :
  Qmin (inject_Z x) (inject_Z y) == inject_Z (Z.min x y).
Proof.
  destruct (Z.min_spec x y) as [[Hlt ->]|[Hle ->]].
  - apply Q.min_l. rewrite <- Zle_Qle. lia.
  - apply Q.min_r. rewrite <- Zle_Qle. lia.
Qed.

Lemma inject_Z_minus (x y : Z) : inject_Z x - inject_Z y == inject_Z (x - y).
Proof.
  unfold Z.sub, Qminus. rewrite inject_Z_plus, inject_Z_opp. reflexivity.
Qed.

Lemma is_int_add (a b : number) (x y : Z) :
  is_int a x -> is_int b y -> is_int (a + b)%js (x + y).
Proof.
  intros Ha Hb. unfold is_int. rewrite inject_Z_plus.
  apply is_num_add; assumption.
Qed.

Lemma is_int_sub (a b : number) (x y : Z) :
  is_int a x -> is_int b y -> is_int (a - b)%js (x - y).
Proof.
  intros Ha Hb. eapply is_num_eq.
  - apply is_num_sub; eassumption.
  - apply inject_Z_minus.
Qed.

Lemma is_int_mul (a b : number) (x y : Z) :
  is_int a x -> is_int b y -> is_int (a * b)%js (x * y).
Proof.
  intros Ha Hb. unfold is_int. rewrite inject_Z_mult.
  apply is_num_mul; assumption.
Qed.

Lemma is_int_max (a b : number) (x y : Z) :
  is_int a x -> is_int b y -> is_int (Math.max a b) (Z.max x y).
Proof.
  intros Ha Hb. eapply is_num_eq.
  - apply is_num_max; eassumption.
  - apply Qmax_inject_Z.
Qed.

Lemma is_int_min (a b : number) (x y : Z) :
  is_int a x -> is_int b y -> is_int (Math.min a b) (Z.min x y).
Proof.
  intros Ha Hb. eapply is_num_eq.
  - apply is_num_min; eassumption.
  - apply Qmin_inject_Z.
Qed.

(** Floor and ceiling of a quotient by a positive divisor. *)

Lemma Qfloor_div_nonneg (x y : Q) : 0 <= x -> 0 < y -> (0 <= Qfloor (x / y))%Z.
Proof.
  intros Hx Hy.
  rewrite <- (Qfloor_Z 0). apply Qfloor_resp_le.
  apply Qle_shift_div_l; [exact Hy|].
  rewrite Qmult_0_l. exact Hx.
Qed.

Lemma Qceiling_div_nonneg (x y : Q) :
  0 <= x -> 0 < y -> (0 <= Qceiling (x / y))%Z.
Proof.
  intros Hx Hy.
  rewrite <- (Qceiling_Z 0). apply Qceiling_resp_le.
  apply Qle_shift_div_l; [exact Hy|].
  rewrite Qmult_0_l. exact Hx.
Qed.

Lemma Qfloor_div_mono (x x' y : Q) :
  x <= x' -> 0 < y -> (Qfloor (x / y) <= Qfloor (x' / y))%Z.
Proof.
  intros Hx Hy. apply Qfloor_resp_le.
  unfold Qdiv. apply Qmult_le_compat_r; [exact Hx|].
  apply Qlt_le_weak, Qinv_lt_0_compat, Hy.
Qed.

(** [floor (x / y) <= n] says [x] lies below the start of item [n + 1]. *)
Lemma Qfloor_div_le_iff (x y : Q) (n : Z) :
  0 < y -> ((Qfloor (x / y) <= n)%Z <-> x < inject_Z (n + 1) * y).
Proof.
  intros Hy.
  assert (Hy0 : ~ y == 0) by (intros E; rewrite E in Hy; discriminate).
  split.
  - intros H.
    assert (Hq : x / y < inject_Z (n + 1)).
    { eapply Qlt_le_trans; [apply Qlt_floor|].
      rewrite <- Zle_Qle. lia. }
    apply (Qmult_lt_r _ _ y Hy) in Hq.
    assert (E : x / y * y == x) by (field; exact Hy0).
    rewrite E in Hq. exact Hq.
  - intros H.
    assert (Hq : inject_Z (Qfloor (x / y)) < inject_Z (n + 1)).
    { eapply Qle_lt_trans; [apply Qfloor_le|].
      apply Qlt_shift_div_r; assumption. }
    rewrite <- Zlt_Qlt in Hq. lia.
Qed.

(** Truncation toward zero leaves an integer as it is. *)
Lemma Qtruncate_int (q : Q) (z : Z) : q == inject_Z z -> Qtruncate q = z.
Proof.
  destruct q as [n d]. unfold Qeq, Qtruncate. simpl.
  intros H. rewrite Z.mul_1_r in H. subst n.
  apply Z.quot_mul. discriminate.
Qed.

End NumberFacts.

(** ** Quotients of whole pixels *)

Lemma floor_item_start (top h : Q) :
  (0 < h)%Q -> (inject_Z (Qfloor (top / h)) * h <= top)%Q.
Proof.
  intros Hh.
  assert (Hh0 : ~ (h == 0)%Q) by (intros E; rewrite E in Hh; discriminate).
  assert (E : (top / h * h == top)%Q) by (field; exact Hh0).
  rewrite <- E at 2. apply Qmult_le_compat_r.
  - apply Qfloor_le.
  - apply Qlt_le_weak, Hh.
Qed.

Lemma ceiling_items_cover (size h : Q) :
  (0 < h)%Q -> (size <= inject_Z (Qceiling (size / h)) * h)%Q.
Proof.
  intros Hh.
  assert (Hh0 : ~ (h == 0)%Q) by (intros E; rewrite E in Hh; discriminate).
  assert (E : (size / h * h == size)%Q) by (field; exact Hh0).
  rewrite <- E at 1. apply Qmult_le_compat_r.
  - apply Qle_ceiling.
  - apply Qlt_le_weak, Hh.
Qed.

(** An item that intersects the viewport lies between the floor of the
    offset and that floor plus the ceiling of the viewport size, in items. *)
Lemma intersecting_item_range (top size h : Q) (i : Z) :
  (0 < h)%Q ->
  (inject_Z i * h < top + size)%Q -> (top < inject_Z (i + 1) * h)%Q ->
  (Qfloor (top / h) <= i <= Qfloor (top / h) + Qceiling (size / h))%Z.
Proof.
  intros Hh Hlo Hhi. split.
  - apply (Qfloor_div_le_iff top h i Hh). exact Hhi.
  - set (f := Qfloor (top / h)). set (c := Qceiling (size / h)).
    assert (Hf : (top < inject_Z (f + 1) * h)%Q).
    { apply (Qfloor_div_le_iff top h f Hh). unfold f. lia. }
    pose proof (ceiling_items_cover size h Hh) as Hc. fold c in Hc.
    assert (Hi : (inject_Z i * h < inject_Z (f + 1 + c) * h)%Q).
    { eapply Qlt_le_trans; [exact Hlo|].
      rewrite (inject_Z_plus (f + 1) c), Qmult_plus_distr_l.
      apply Qplus_le_compat; [apply Qlt_le_weak, Hf | exact Hc]. }
    apply (proj1 (Qmult_lt_r _ _ h Hh)) in Hi. rewrite <- Zlt_Qlt in Hi. lia.
Qed.

Lemma inject_Z_pos (h : Z) : (1 <= h)%Z -> (0 < inject_Z h)%Q.
Proof.
  intros H. change 0%Q with (inject_Z 0). rewrite <- Zlt_Qlt. lia.
Qed.

(** The floor of a quotient of integers is their floored division. *)
Lemma Qfloor_px (a b : Z) : Qfloor (inject_Z a / inject_Z b) = (a / b)%Z.
Proof. symmetry. apply Zdiv_Qdiv. Qed.

Lemma Qceiling_px (a b : Z) :
  Qceiling (inject_Z a / inject_Z b) = (- ((- a) / b))%Z.
Proof.
  unfold Qceiling. f_equal. rewrite <- Qfloor_px. apply Qfloor_comp.
  rewrite inject_Z_opp. unfold Qdiv. ring.
Qed.

(** Rounding a quotient of whole pixels does not move its floor or its
    ceiling: any [r] within the binary64 error of [a / b], and equal to it
    when the quotient is an integer, has the floor and the ceiling of the
    exact quotient. *)
Lemma rounded_quotient_floor_ceiling (a b : Z) (r : Q) :
  (0 <= a < exact_limit)%Z -> (1 <= b)%Z ->
  (Qabs (r - inject_Z a / inject_Z b)
     <= Qabs (inject_Z a / inject_Z b) * unit_roundoff)%Q ->
  ((a mod b = 0)%Z -> (r == inject_Z a / inject_Z b)%Q) ->
  Qfloor r = (a / b)%Z /\ Qceiling r = (- ((- a) / b))%Z.
Proof.
  intros Ha Hb Herr Hexact.
  set (q := (inject_Z a / inject_Z b)%Q) in *.
  assert (Hb0 : (0 < inject_Z b)%Q).
  { change 0%Q with (inject_Z 0). rewrite <- Zlt_Qlt. lia. }
  assert (Hbn : ~ (inject_Z b == 0)%Q).
  { intros E. rewrite E in Hb0. discriminate. }
  assert (HP0 : (0 < inject_Z exact_limit)%Q) by reflexivity.
  assert (HPn : ~ (inject_Z exact_limit == 0)%Q) by discriminate.
  pose proof (Z.div_mod a b ltac:(lia)) as E.
  pose proof (Z.mod_pos_bound a b ltac:(lia)) as B.
  set (k := (a / b)%Z) in *. set (m := (a mod b)%Z) in *.
  assert (Hq0 : (0 <= q)%Q).
  { unfold q. apply Qle_shift_div_l; [exact Hb0|].
    rewrite Qmult_0_l. change 0%Q with (inject_Z 0). rewrite <- Zle_Qle. lia. }
  destruct (Z.eq_dec m 0) as [Hm|Hm].
  - (* an integer quotient is not rounded *)
    assert (Hqk : (q == inject_Z k)%Q).
    { unfold q. replace a with (k * b)%Z by lia.
      rewrite inject_Z_mult. field. exact Hbn. }
    rewrite (Qfloor_comp _ _ (Hexact Hm)), (Qceiling_comp _ _ (Hexact Hm)).
    rewrite (Qfloor_comp _ _ Hqk), (Qceiling_comp _ _ Hqk).
    rewrite Qfloor_Z, Qceiling_Z. split; [reflexivity|].
    replace (- a)%Z with ((- k) * b)%Z by lia.
    rewrite Z.div_mul by lia. lia.
  - (* otherwise the quotient is at least 1/b away from an integer *)
    rewrite (Qabs_pos q Hq0) in Herr.
    apply Qabs_Qle_condition in Herr. destruct Herr as [Hlo Hhi].
    assert (Elo : (q - q * unit_roundoff
                   == inject_Z (a * (exact_limit - 1))
                      / inject_Z (b * exact_limit))%Q).
    { unfold q, unit_roundoff, Z.sub.
      rewrite !inject_Z_mult, inject_Z_plus, inject_Z_opp.
      field. split; assumption. }
    assert (Ehi : (q + q * unit_roundoff
                   == inject_Z (a * (exact_limit + 1))
                      / inject_Z (b * exact_limit))%Q).
    { unfold q, unit_roundoff.
      rewrite !inject_Z_mult, inject_Z_plus.
      field. split; assumption. }
    assert (HbP : (0 < inject_Z (b * exact_limit))%Q).
    { change 0%Q with (inject_Z 0). rewrite <- Zlt_Qlt.
      unfold exact_limit. lia. }
    assert (Hk : (inject_Z k < r)%Q).
    { apply Qlt_le_trans with (q - q * unit_roundoff)%Q.
      - rewrite Elo. apply Qlt_shift_div_l; [exact HbP|].
        rewrite <- inject_Z_mult, <- Zlt_Qlt.
        unfold exact_limit in *. nia.
      - apply (Qplus_le_l _ _ (- q)%Q).
        setoid_replace (q - q * unit_roundoff + - q)%Q
          with (- (q * unit_roundoff))%Q by ring.
        exact Hlo. }
    assert (Hk1 : (r < inject_Z (k + 1))%Q).
    { apply Qle_lt_trans with (q + q * unit_roundoff)%Q.
      - apply (Qplus_le_l _ _ (- q)%Q).
        setoid_replace (q + q * unit_roundoff + - q)%Q
          with (q * unit_roundoff)%Q by ring.
        exact Hhi.
      - rewrite Ehi. apply Qlt_shift_div_r; [exact HbP|].
        rewrite <- inject_Z_mult, <- Zlt_Qlt.
        unfold exact_limit in *. nia. }
    assert (Hfloor : Qfloor r = k).
    { pose proof (Qfloor_le r) as H1. pose proof (Qlt_floor r) as H2.
      assert (H3 : (inject_Z (Qfloor r) < inject_Z (k + 1))%Q)
        by (eapply Qle_lt_trans; eassumption).
      assert (H4 : (inject_Z k < inject_Z (Qfloor r + 1))%Q)
        by (eapply Qlt_trans; eassumption).
      rewrite <- Zlt_Qlt in H3, H4. lia. }
    assert (Hceil : Qceiling r = (k + 1)%Z).
    { pose proof (Qle_ceiling r) as H1. pose proof (Qceiling_lt r) as H2.
      assert (H3 : (inject_Z k < inject_Z (Qceiling r))%Q)
        by (eapply Qlt_le_trans; eassumption).
      assert (H4 : (inject_Z (Qceiling r - 1) < inject_Z (k + 1))%Q)
        by (eapply Qlt_trans; eassumption).
      rewrite <- Zlt_Qlt in H3, H4. lia. }
    split; [exact Hfloor|]. rewrite Hceil.
    pose proof (Z.div_mod (- a) b ltac:(lia)) as E'.
    pose proof (Z.mod_pos_bound (- a) b ltac:(lia)) as B'.
    nia.
Qed.

(** So on whole pixels [Math.floor] and [Math.ceil] of the program's rounded
    quotient are those of the exact quotient [a / b] of the model. *)
Lemma floor_ceil_survive_rounding (a b : Z) (r : Q) :
  (0 <= a < exact_limit)%Z -> (1 <= b)%Z ->
  (Qabs (r - inject_Z a / inject_Z b)
     <= Qabs (inject_Z a / inject_Z b) * unit_roundoff)%Q ->
  ((a mod b = 0)%Z -> (r == inject_Z a / inject_Z b)%Q) ->
  Math.floor (Num r) = Math.floor (of_Z a / of_Z b)%js /\
  Math.ceil (Num r) = Math.ceil (of_Z a / of_Z b)%js.
Proof.
  intros Ha Hb Herr Hexact.
  destruct (rounded_quotient_floor_ceiling a b r Ha Hb Herr Hexact)
    as [Hf Hc].
  assert (Hb0 : (0 < inject_Z b)%Q) by (apply inject_Z_pos; exact Hb).
  assert (Ediv : (of_Z a / of_Z b)%js = Num (inject_Z a / inject_Z b)).
  { unfold of_Z. simpl. apply Qgt_alt in Hb0. rewrite Hb0. reflexivity. }
  rewrite Ediv. unfold Math.floor, Math.ceil.
  rewrite Hf, Hc, Qfloor_px, Qceiling_px.
  split; reflexivity.
Qed.

Lemma startZ_px (h o top : Z) :
  startZ (inject_Z h) o (inject_Z top) = Z.max 0 (top / h - o).
Proof. unfold startZ. rewrite Qfloor_px. reflexivity. Qed.

Lemma countZ_px (h size : Z) :
  countZ (inject_Z h) (inject_Z size) = (- ((- size) / h))%Z.
Proof. unfold countZ. apply Qceiling_px. Qed.

(** The ceiling of size / h, for whole pixels: at least size / h, and below
    size / h + 1. *)
Lemma ceil_div_bounds (h size : Z) :
  (1 <= h)%Z ->
  (size <= (- ((- size) / h)) * h < size + h)%Z.
Proof.
  intros Hh.
  pose proof (Z.div_mod (- size) h ltac:(lia)) as E.
  pose proof (Z.mod_pos_bound (- size) h ltac:(lia)) as B.
  nia.
Qed.

Lemma floor_div_bounds (h top : Z) :
  (1 <= h)%Z -> ((top / h) * h <= top < (top / h + 1) * h)%Z.
Proof.
  intros Hh.
  pose proof (Z.div_mod top h ltac:(lia)) as E.
  pose proof (Z.mod_pos_bound top h ltac:(lia)) as B.
  nia.
Qed.

(** ** [slice] at integer arguments *)

Section SliceFacts.

Context {T : Type}.
Implicit Types (l : list T) (a b : number) (x y : Z).

Lemma relativeIndex_int a x (len : Z) :
  is_int a x -> 0 <= x -> relativeIndex a len = Z.min x len.
Proof.
  destruct a as [q| | |]; simpl; try contradiction.
  intros Hq Hx. rewrite (Qtruncate_int q x Hq).
  destruct (Z.ltb_spec x 0); [lia|reflexivity].
Qed.

Lemma slice_int l a b x y :
  is_int a x -> is_int b y -> 0 <= x -> 0 <= y ->
  let len := Z.of_nat (length l) in
  slice l a b =
    firstn (Z.to_nat (Z.min y len - Z.min x len))
           (skipn (Z.to_nat (Z.min x len)) l).
Proof.
  intros Ha Hb Hx Hy len. unfold slice. fold len.
  rewrite (relativeIndex_int a x len Ha Hx).
  rewrite (relativeIndex_int b y len Hb Hy).
  f_equal. lia.
Qed.

Lemma slice_empty l a b x y :
  is_int a x -> is_int b y -> 0 <= x -> 0 <= y -> y <= x ->
  slice l a b = [].
Proof.
  intros Ha Hb Hx Hy Hyx.
  rewrite (slice_int l a b x y Ha Hb Hx Hy).
  replace (Z.to_nat _) with 0%nat by lia. reflexivity.
Qed.

Lemma slice_length l a b x y :
  is_int a x -> is_int b y -> 0 <= x <= y -> y <= Z.of_nat (length l) ->
  Z.of_nat (length (slice l a b)) = y - x.
Proof.
  intros Ha Hb Hxy Hy.
  rewrite (slice_int l a b x y Ha Hb) by lia.
  rewrite length_firstn, length_skipn. lia.
Qed.

Lemma slice_nil a b : slice (@nil T) a b = [].
Proof.
  unfold slice. rewrite skipn_nil. apply firstn_nil.
Qed.

End SliceFacts.

(** ** The window at finite inputs and a positive item height *)

Section WindowFacts.

Context {T : Type}.
Variables (l : list T) (r : option Element.t).
Variables (h : Q) (o : Z) (top size : Q).
Hypothesis h_pos : (0 < h)%Q.

Lemma h_nonzero : ~ (h == 0)%Q.
Proof using h_pos. intros E. rewrite E in h_pos. discriminate. Qed.

Lemma rawStart_int :
is_int (Math.floor (Num top / Num h) - of_Z o)%js (Qfloor (top / h) - o).
Proof using h_pos.
apply is_int_sub; [|apply is_int_of_Z].
apply is_int_floor, is_num_div;
  [apply is_num_Num | apply is_num_Num | exact h_nonzero].
Qed.

Lemma startIndex_int :
is_int (startIndex (window l r h o top size)) (startZ h o top).
Proof using h_pos.
apply is_int_max; [apply is_int_of_Z | apply rawStart_int].
Qed.

Lemma visibleCount_int :
is_int (visibleCount (window l r h o top size)) (countZ h size).
Proof using h_pos.
apply is_int_ceil, is_num_div;
  [apply is_num_Num | apply is_num_Num | exact h_nonzero].
Qed.

Lemma endIndex_int :
is_int (endIndex (window l r h o top size)) (endZ l h o top size).
Proof using h_pos.
apply is_int_min; [apply is_int_of_Z|].
apply is_int_add.
- apply is_int_add; [apply startIndex_int | apply visibleCount_int].
- apply is_int_mul; apply is_int_of_Z.
Qed.

Lemma paddingTop_num :
is_num (paddingTop (window l r h o top size))
       (inject_Z (startZ h o top) * h).
Proof using h_pos.
apply is_num_mul; [apply startIndex_int | apply is_num_Num].
Qed.

Lemma paddingBottom_num :
is_num (paddingBottom (window l r h o top size))
       (inject_Z (Z.of_nat (length l) - endZ l h o top size) * h).
Proof using h_pos.
apply is_num_mul; [|apply is_num_Num].
apply is_int_sub; [apply is_int_of_Z | apply endIndex_int].
Qed.

Lemma startZ_nonneg : 0 <= startZ h o top.
Proof using Type. unfold startZ. lia. Qed.

Lemma countZ_nonneg : (0 <= size)%Q -> 0 <= countZ h size.
Proof using h_pos. intros Hs. apply Qceiling_div_nonneg; assumption. Qed.

Lemma endZ_bounds :
(0 <= size)%Q -> 0 <= o ->
0 <= endZ l h o top size <= Z.of_nat (length l).
Proof using h_pos.
intros Hs Ho. pose proof startZ_nonneg. pose proof (countZ_nonneg Hs).
unfold endZ. lia.
Qed.

Lemma startZ_le_endZ_iff :
(0 <= size)%Q -> 0 <= o ->
(startZ h o top <= endZ l h o top size <->
 Qfloor (top / h) - o <= Z.of_nat (length l)).
Proof using h_pos.
intros Hs Ho. pose proof (countZ_nonneg Hs).
unfold endZ, startZ. lia.
Qed.

Lemma visibleItems_empty :
(0 <= size)%Q -> 0 <= o ->
endZ l h o top size <= startZ h o top ->
visibleItems (window l r h o top size) = [].
Proof using h_pos.
intros Hs Ho Hle.
apply (slice_empty _ _ _ (startZ h o top) (endZ l h o top size)).
- apply startIndex_int.
- apply endIndex_int.
- apply startZ_nonneg.
- apply (endZ_bounds Hs Ho).
- exact Hle.
Qed.

Lemma visibleItems_length :
(0 <= size)%Q -> 0 <= o ->
startZ h o top <= endZ l h o top size ->
Z.of_nat (length (visibleItems (window l r h o top size)))
= endZ l h o top size - startZ h o top.
Proof using h_pos.
intros Hs Ho Hle. pose proof (endZ_bounds Hs Ho).
apply slice_length.
- apply startIndex_int.
- apply endIndex_int.
- split; [apply startZ_nonneg | exact Hle].
- simpl. lia.
Qed.

End WindowFacts.

(** The state [window] names is the one the composable is in after it was
    constructed on a surface, mounted, and notified of a scroll. *)
Lemma window_reached {T : Type} (l : list T) (h : Q) (o : Z) (top size : Q) :
  let el := Element.mk (Num top) (Num size) in
  let cfg := Options.mk l (Some el) (Num h) (Some (of_Z o)) in
  exists s0,
    useVirtualScroller cfg = Normal s0 /\
    onScroll (onMounted s0) = window l (Some el) h o top size.
Proof.
  intros el cfg. eexists. split; reflexivity.
Qed.

(** After [scrollToIndex], the surface's scroll notification brings the
    requested offset into the [scrollTop] ref. *)
Lemma scrollToIndex_then_onScroll {T : Type} (s : Scroller T) (index : number) :
  containerRef s <> None ->
  scrollTop (onScroll (scrollToIndex s index)) = (index * itemHeight s)%js.
Proof.
  unfold scrollToIndex, onScroll.
  destruct (containerRef s) as [el|] eqn:E; [|congruence].
  intros _. reflexivity.
Qed.

(** ** Properties of the window *)

Implicit Types (r : option Element.t) (h top size : Q) (o : Z).

Local Open Scope js_scope.

Lemma item_start_below h (n : Z) :
  (0 < h)%Q -> (inject_Z n * h < inject_Z (n + 1) * h)%Q.
Proof.
  intros Hh. apply Qmult_lt_r; [exact Hh|].
  rewrite <- Zlt_Qlt. lia.
Qed.

(** C1 (as the spec words it, refuted): with no items and the surface scrolled
    to offset 100, [startIndex] is 5 and [endIndex] is 0. *)
Lemma window_order_counterexample :
  let s := window (@nil unit) None 20 0 100 0 in
  length (items s) = 0%nat /\ (0 <= 0)%Q /\ (0 <= 100)%Q /\ (0 <= 0)%Z /\
  (0 < 20)%Q /\
  ~ ((of_Z 0 <=? startIndex s) = true /\
     (startIndex s <=? endIndex s) = true /\
     (endIndex s <=? array_length (items s)) = true).
Proof.
  split; [reflexivity|]. split; [discriminate|]. split; [discriminate|].
  split; [lia|]. split; [reflexivity|].
  vm_compute. intros [_ [H _]]. discriminate H.
Qed.

(** C1 (amended): for itemCount >= 0, viewportSize >= 0, scrollOffset >= 0,
    overscan >= 0 and itemHeight > 0, 0 <= startIndex and
    0 <= endIndex <= itemCount; startIndex <= endIndex holds exactly when
    floor(scrollOffset / itemHeight) - overscan <= itemCount, and so whenever
    scrollOffset <= itemCount * itemHeight. *)
Theorem window_bounds {T : Type} (l : list T) r h o top size :
  (0 <= top)%Q -> (0 <= size)%Q -> (0 <= o)%Z -> (0 < h)%Q ->
  let s := window l r h o top size in
  (of_Z 0 <=? startIndex s) = true /\
  (of_Z 0 <=? endIndex s) = true /\
  (endIndex s <=? array_length (items s)) = true /\
  ((startIndex s <=? endIndex s) = true <->
   (Math.floor (scrollTop s / itemHeight s) - overscan s
      <=? array_length (items s)) = true) /\
  ((top <= inject_Z (Z.of_nat (length l)) * h)%Q ->
   (startIndex s <=? endIndex s) = true).
Proof.
  intros Htop Hsize Ho Hh s.
  pose proof (startIndex_int l r h o top size Hh) as Hs.
  pose proof (endIndex_int l r h o top size Hh) as He.
  pose proof (rawStart_int h o top Hh) as Hr.
  pose proof (endZ_bounds l h o top size Hh Hsize Ho) as Hb.
  pose proof (startZ_le_endZ_iff l h o top size Hh Hsize Ho) as Hiff.
  pose proof (startZ_nonneg h o top) as H0.
  fold s in Hs, He.
  repeat split.
  - apply (leb_int _ _ _ _ (is_int_of_Z 0) Hs). exact H0.
  - apply (leb_int _ _ _ _ (is_int_of_Z 0) He). apply Hb.
  - apply (leb_int _ _ _ _ He (is_int_of_Z _)). apply Hb.
  - intros H. apply (leb_int _ _ _ _ Hr (is_int_of_Z _)).
    apply Hiff. apply (leb_int _ _ _ _ Hs He). exact H.
  - intros H. apply (leb_int _ _ _ _ Hs He).
    apply Hiff. apply (leb_int _ _ _ _ Hr (is_int_of_Z _)). exact H.
  - intros Hin. apply (leb_int _ _ _ _ Hs He). apply Hiff.
    assert (Qfloor (top / h) <= Z.of_nat (length l))%Z; [|lia].
    apply (Qfloor_div_le_iff top h _ Hh).
    eapply Qle_lt_trans; [exact Hin|]. apply item_start_below, Hh.
Qed.

Lemma window_bounds_witness :
  let s := window [1; 2; 3]%nat None 20 1 40 30 in
  (of_Z 0 <=? startIndex s) = true /\
  (startIndex s <=? endIndex s) = true /\
  (endIndex s <=? array_length (items s)) = true.
Proof.
  intros s.
  assert (Htop : (0 <= 40)%Q) by discriminate.
  assert (Hsize : (0 <= 30)%Q) by discriminate.
  assert (Ho : (0 <= 1)%Z) by lia.
  assert (Hh : (0 < 20)%Q) by reflexivity.
  destruct (window_bounds [1; 2; 3]%nat None 20 1 40 30 Htop Hsize Ho Hh)
    as (A & _ & C & _ & E).
  split; [exact A | split; [apply E; discriminate | exact C]].
Defined.

(** C3 (as the spec words it, refuted): an empty list with the surface at
    offset 100 has [startIndex] 5 and [paddingTop] 100. *)
Lemma empty_list_counterexample :
  let s := window (@nil unit) None 20 0 100 0 in
  length (items s) = 0%nat /\ (0 <= 0)%Q /\ (0 <= 100)%Q /\ (0 <= 0)%Z /\
  (0 < 20)%Q /\
  ~ ((startIndex s =? of_Z 0) = true /\ (endIndex s =? of_Z 0) = true /\
     (paddingTop s =? of_Z 0) = true /\ (paddingBottom s =? of_Z 0) = true /\
     visibleItems s = []).
Proof.
  split; [reflexivity|]. split; [discriminate|]. split; [discriminate|].
  split; [lia|]. split; [reflexivity|].
  vm_compute. intros [H _]. discriminate H.
Qed.

(** C3 (amended): for scrollOffset >= 0, viewportSize >= 0, overscan >= 0 and
    itemHeight > 0, when itemCount = 0 the result has endIndex = 0,
    paddingBottom = 0 and an empty visibleItems slice; startIndex and
    paddingTop are 0 exactly when floor(scrollOffset / itemHeight) <= overscan,
    the quotient being the one the code computes, and so at
    scrollOffset = 0. *)
Theorem empty_list_window {T : Type} r h o top size :
  (0 <= top)%Q -> (0 <= size)%Q -> (0 <= o)%Z -> (0 < h)%Q ->
  let s := window (@nil T) r h o top size in
  (endIndex s =? of_Z 0) = true /\
  (paddingBottom s =? of_Z 0) = true /\
  visibleItems s = [] /\
  ((startIndex s =? of_Z 0) = true <->
   (Math.floor (scrollTop s / itemHeight s) <=? overscan s) = true) /\
  ((paddingTop s =? of_Z 0) = true <->
   (Math.floor (scrollTop s / itemHeight s) <=? overscan s) = true) /\
  ((top == 0)%Q ->
   (startIndex s =? of_Z 0) = true /\ (paddingTop s =? of_Z 0) = true).
Proof.
  intros Htop Hsize Ho Hh s.
  pose proof (startIndex_int (@nil T) r h o top size Hh) as Hs.
  pose proof (endIndex_int (@nil T) r h o top size Hh) as He.
  pose proof (paddingTop_num (@nil T) r h o top size Hh) as Hpt.
  pose proof (paddingBottom_num (@nil T) r h o top size Hh) as Hpb.
  pose proof (endZ_bounds (@nil T) h o top size Hh Hsize Ho) as Hb.
  fold s in Hs, He, Hpt, Hpb. simpl in Hb, Hpb.
  assert (Hfl : is_int (Math.floor (scrollTop s / itemHeight s))
                  (Qfloor (top / h))).
  { apply is_int_floor, is_num_div;
      [apply is_num_Num | apply is_num_Num | exact (h_nonzero h Hh)]. }
  assert (Hez : endZ (@nil T) h o top size = 0%Z) by lia.
  assert (Hsz : startZ h o top = 0%Z <-> (Qfloor (top / h) <= o)%Z).
  { unfold startZ. lia. }
  assert (Hcode : (Math.floor (scrollTop s / itemHeight s) <=? overscan s)
                    = true <-> (Qfloor (top / h) <= o)%Z).
  { apply (leb_int _ _ _ _ Hfl (is_int_of_Z o)). }
  assert (Hstart : (startIndex s =? of_Z 0) = true
                   <-> (Qfloor (top / h) <= o)%Z).
  { rewrite <- Hsz. apply (eqb_int _ _ _ _ Hs (is_int_of_Z 0)). }
  assert (Hpad : (paddingTop s =? of_Z 0) = true
                 <-> (Qfloor (top / h) <= o)%Z).
  { rewrite <- Hsz. split.
    - intros H. apply (eqb_num _ _ _ _ Hpt (is_num_Num _)) in H.
      apply Qmult_integral in H. destruct H as [H|H].
      + apply (inject_Z_injective _ 0). exact H.
      + exfalso. rewrite H in Hh. discriminate.
    - intros H. apply (eqb_num _ _ _ _ Hpt (is_num_Num _)).
      rewrite H. apply Qmult_0_l. }
  split; [|split; [|split; [|split; [|split]]]].
  - apply (eqb_int _ _ _ _ He (is_int_of_Z 0)). exact Hez.
  - apply (eqb_num _ _ _ _ Hpb (is_num_Num _)).
    rewrite Hez. simpl. apply Qmult_0_l.
  - apply slice_nil.
  - rewrite Hcode. exact Hstart.
  - rewrite Hcode. exact Hpad.
  - intros H0.
    assert (E : Qfloor (top / h) = 0%Z).
    { rewrite <- (Qfloor_Z 0). apply Qfloor_comp.
      rewrite H0. unfold Qdiv. apply Qmult_0_l. }
    split; [apply Hstart | apply Hpad]; lia.
Qed.

Lemma empty_list_window_witness :
  let s := window (@nil nat) None 20 2 50 200 in
  (endIndex s =? of_Z 0) = true /\ (startIndex s =? of_Z 0) = true.
Proof.
  intros s.
  assert (Htop : (0 <= 50)%Q) by discriminate.
  assert (Hsize : (0 <= 200)%Q) by discriminate.
  assert (Ho : (0 <= 2)%Z) by lia.
  assert (Hh : (0 < 20)%Q) by reflexivity.
  destruct (@empty_list_window nat None 20 2 50 200 Htop Hsize Ho Hh)
    as (A & _ & _ & D & _).
  split; [exact A | apply D; reflexivity].
Defined.

(** C10: for itemCount >= 0, viewportSize >= 0, scrollOffset >= 0,
    overscan >= 0 and itemHeight > 0, endIndex lies in [0, itemCount] and
    paddingBottom = (itemCount - endIndex) * itemHeight is >= 0; at a scroll
    offset past the end of the list and its overscan, visibleItems is the
    empty slice. *)
Theorem endIndex_in_range {T : Type} (l : list T) r h o top size :
  (0 <= top)%Q -> (0 <= size)%Q -> (0 <= o)%Z -> (0 < h)%Q ->
  let s := window l r h o top size in
  (of_Z 0 <=? endIndex s) = true /\
  (endIndex s <=? array_length (items s)) = true /\
  paddingBottom s = (array_length (items s) - endIndex s) * itemHeight s /\
  (of_Z 0 <=? paddingBottom s) = true /\
  ((inject_Z (Z.of_nat (length l) + o) * h <= top)%Q -> visibleItems s = []).
Proof.
  intros Htop Hsize Ho Hh s.
  pose proof (endIndex_int l r h o top size Hh) as He.
  pose proof (paddingBottom_num l r h o top size Hh) as Hpb.
  pose proof (endZ_bounds l h o top size Hh Hsize Ho) as Hb.
  fold s in He, Hpb.
  split; [|split; [|split; [|split]]].
  - apply (leb_int _ _ _ _ (is_int_of_Z 0) He). apply Hb.
  - apply (leb_int _ _ _ _ He (is_int_of_Z _)). apply Hb.
  - reflexivity.
  - apply (leb_num _ _ _ _ (is_num_Num _) Hpb).
    apply Qmult_le_0_compat; [|apply Qlt_le_weak, Hh].
    change 0%Q with (inject_Z 0). rewrite <- Zle_Qle. lia.
  - intros Hpast. apply (visibleItems_empty l r h o top size Hh Hsize Ho).
    assert (Hfl : ~ (Qfloor (top / h) <= Z.of_nat (length l) + o - 1)%Z).
    { intros Hc. apply (Qfloor_div_le_iff top h _ Hh) in Hc.
      replace (Z.of_nat (length l) + o - 1 + 1)%Z
        with (Z.of_nat (length l) + o)%Z in Hc by lia.
      exact (Qle_not_lt _ _ Hpast Hc). }
    unfold startZ. lia.
Qed.

Lemma endIndex_in_range_witness :
  let s := window [1; 2; 3]%nat None 20 1 500 30 in
  (endIndex s <=? array_length (items s)) = true /\ visibleItems s = [].
Proof.
  intros s.
  assert (Htop : (0 <= 500)%Q) by discriminate.
  assert (Hsize : (0 <= 30)%Q) by discriminate.
  assert (Ho : (0 <= 1)%Z) by lia.
  assert (Hh : (0 < 20)%Q) by reflexivity.
  destruct (endIndex_in_range [1; 2; 3]%nat None 20 1 500 30 Htop Hsize Ho Hh)
    as (_ & B & _ & _ & E).
  split; [exact B | apply E; discriminate].
Defined.

(** C4 (as the spec words it, refuted): in binary64, with 100 items of height
    33.3 in a viewport of 400 at offset 0 and overscan 0, the three terms add
    up to 3330 while itemCount * itemHeight is 3329.9999999999995. *)
Lemma total_space_counterexample :
  let s := Double.mk 100 0x1.0a66666666666p+5 0 0 400 in
  (PrimFloat.ltb 0 (Double.itemHeight s) = true /\
   PrimFloat.leb 0 (Double.scrollTop s) = true /\
   PrimFloat.leb 0 (Double.containerHeight s) = true /\
   PrimFloat.leb 0 (Double.overscan s) = true) /\
  PrimFloat.eqb
    (Double.paddingTop s
     + (Double.endIndex s - Double.startIndex s) * Double.itemHeight s
     + Double.paddingBottom s)%float
    (Double.of_Z 100 * Double.itemHeight s)%float = false.
Proof.
  vm_compute. repeat split.
Qed.

(** C4 (amended): for itemCount >= 0, viewportSize >= 0, scrollOffset >= 0,
    overscan >= 0 and an itemHeight that is a whole number >= 1, with
    scrollOffset and itemCount * itemHeight at most 2^53,
    paddingTop + (endIndex - startIndex) * itemHeight + paddingBottom equals
    itemCount * itemHeight; the three terms and their partial sum are whole
    numbers of magnitude at most 2^53, where binary64 arithmetic is exact. *)
Theorem total_space_preserved {T : Type} (l : list T) r (h : Z) o top size :
  (0 <= top)%Q -> (0 <= size)%Q -> (0 <= o)%Z -> (1 <= h)%Z ->
  (top <= inject_Z exact_limit)%Q ->
  (Z.of_nat (length l) * h <= exact_limit)%Z ->
  let s := window l r (inject_Z h) o top size in
  (paddingTop s + (endIndex s - startIndex s) * itemHeight s + paddingBottom s
     =? array_length (items s) * itemHeight s) = true /\
  exists a b c : Z,
    is_int (paddingTop s) a /\
    is_int ((endIndex s - startIndex s) * itemHeight s) b /\
    is_int (paddingBottom s) c /\
    (0 <= a <= exact_limit)%Z /\
    (- exact_limit <= b <= exact_limit)%Z /\
    (0 <= c <= exact_limit)%Z /\
    (0 <= a + b <= exact_limit)%Z /\
    (a + b + c = Z.of_nat (length l) * h)%Z.
Proof.
  intros Htop Hsize Ho Hh1 Hlim Hlen s.
  pose proof (inject_Z_pos h Hh1) as Hh.
  pose proof (startIndex_int l r (inject_Z h) o top size Hh) as Hs.
  pose proof (endIndex_int l r (inject_Z h) o top size Hh) as He.
  pose proof (paddingTop_num l r (inject_Z h) o top size Hh) as Hpt.
  pose proof (paddingBottom_num l r (inject_Z h) o top size Hh) as Hpb.
  pose proof (endZ_bounds l (inject_Z h) o top size Hh Hsize Ho) as Hb.
  pose proof (startZ_nonneg (inject_Z h) o top) as Hs0.
  fold s in Hs, He, Hpt, Hpb.
  set (sz := startZ (inject_Z h) o top) in *.
  set (ez := endZ l (inject_Z h) o top size) in *.
  assert (Hmid : is_num ((endIndex s - startIndex s) * itemHeight s)
                   (inject_Z (ez - sz) * inject_Z h)).
  { apply is_num_mul; [|apply is_num_Num]. apply is_int_sub; assumption. }
  assert (Hrhs : is_num (array_length (items s) * itemHeight s)
                   (inject_Z (Z.of_nat (length l)) * inject_Z h)).
  { apply is_num_mul; apply is_num_Num. }
  assert (Hpix : (sz * h <= exact_limit)%Z).
  { pose proof (Qfloor_div_nonneg top (inject_Z h) Htop Hh) as Hf.
    pose proof (floor_item_start top (inject_Z h) Hh) as Hfl.
    assert (Hq : (Qfloor (top / inject_Z h) * h <= exact_limit)%Z).
    { rewrite Zle_Qle, inject_Z_mult.
      eapply Qle_trans; [exact Hfl | exact Hlim]. }
    unfold sz, startZ. nia. }
  split.
  - apply (eqb_num _ _ _ _
             (is_num_add _ _ _ _ (is_num_add _ _ _ _ Hpt Hmid) Hpb) Hrhs).
    rewrite <- !inject_Z_minus. ring.
  - exists (sz * h)%Z, ((ez - sz) * h)%Z,
           ((Z.of_nat (length l) - ez) * h)%Z.
    unfold is_int. rewrite !inject_Z_mult.
    split; [exact Hpt|]. split; [exact Hmid|]. split; [exact Hpb|].
    unfold exact_limit in *. nia.
Qed.

Lemma total_space_preserved_witness :
  let s := window [1; 2; 3]%nat None (inject_Z 20) 1 40 30 in
  (paddingTop s + (endIndex s - startIndex s) * itemHeight s + paddingBottom s
     =? array_length (items s) * itemHeight s) = true.
Proof.
  intros s.
  assert (Htop : (0 <= 40)%Q) by discriminate.
  assert (Hsize : (0 <= 30)%Q) by discriminate.
  assert (Ho : (0 <= 1)%Z) by lia.
  assert (Hh : (1 <= 20)%Z) by lia.
  assert (Hlim : (40 <= inject_Z exact_limit)%Q) by discriminate.
  assert (Hlen : (Z.of_nat (length [1; 2; 3]%nat) * 20 <= exact_limit)%Z)
    by (vm_compute; discriminate).
  destruct (total_space_preserved [1; 2; 3]%nat None 20 1 40 30
              Htop Hsize Ho Hh Hlim Hlen) as (A & _).
  exact A.
Defined.

(** C5: the three worked scenarios.  100 items of height 20 in a viewport of
    200 with overscan 1: at offset 0, visibleCount 10, startIndex 0,
    endIndex 12, paddingTop 0, paddingBottom 1760; at offset 400,
    startIndex 19, endIndex 31, paddingTop 380, paddingBottom 1380.  5 items
    of height 20 in a viewport of 500 with overscan 2 at offset 0:
    endIndex 5 and paddingBottom 0. *)
Theorem worked_scenarios :
  let a := window (seq 0 100) None 20 1 0 200 in
  let b := window (seq 0 100) None 20 1 400 200 in
  let c := window (seq 0 5) None 20 2 0 500 in
  (visibleCount a = of_Z 10 /\ startIndex a = of_Z 0 /\ endIndex a = of_Z 12 /\
   paddingTop a = of_Z 0 /\ paddingBottom a = of_Z 1760) /\
  (startIndex b = of_Z 19 /\ endIndex b = of_Z 31 /\
   paddingTop b = of_Z 380 /\ paddingBottom b = of_Z 1380) /\
  (endIndex c = of_Z 5 /\ paddingBottom c = of_Z 0).
Proof.
  vm_compute. repeat split; reflexivity.
Qed.

(** C6: for two scroll offsets s1 <= s2, the other inputs fixed and
    itemHeight > 0, startIndex(s1) <= startIndex(s2). *)
Theorem startIndex_monotone {T : Type} (l : list T) r h o size (top1 top2 : Q) :
  (0 < h)%Q -> (top1 <= top2)%Q ->
  (startIndex (window l r h o top1 size)
     <=? startIndex (window l r h o top2 size)) = true.
Proof.
  intros Hh Hle.
  apply (leb_int _ _ _ _ (startIndex_int l r h o top1 size Hh)
                         (startIndex_int l r h o top2 size Hh)).
  pose proof (Qfloor_div_mono top1 top2 h Hle Hh).
  unfold startZ. lia.
Qed.

Lemma startIndex_monotone_witness :
  (startIndex (window [1; 2; 3]%nat None 20 1 30 30)
     <=? startIndex (window [1; 2; 3]%nat None 20 1 65 30)) = true.
Proof.
  apply startIndex_monotone.
  - reflexivity.
  - discriminate.
Defined.

(** C8: at scrollOffset = 0, startIndex = 0, for every overscan >= 0,
    itemHeight > 0, itemCount >= 0 and viewportSize >= 0. *)
Theorem startIndex_at_top {T : Type} (l : list T) r h o size :
  (0 <= size)%Q -> (0 <= o)%Z -> (0 < h)%Q ->
  (startIndex (window l r h o 0 size) =? of_Z 0) = true.
Proof.
  intros Hsize Ho Hh.
  apply (eqb_int _ _ _ _ (startIndex_int l r h o 0 size Hh) (is_int_of_Z 0)).
  assert (E : Qfloor (0 / h) = 0%Z).
  { rewrite <- (Qfloor_Z 0). apply Qfloor_comp.
    unfold Qdiv. apply Qmult_0_l. }
  unfold startZ. rewrite E. lia.
Qed.

Lemma startIndex_at_top_witness :
  (startIndex (window [1; 2; 3]%nat None 20 5 0 30) =? of_Z 0) = true.
Proof.
  apply startIndex_at_top.
  - discriminate.
  - lia.
  - reflexivity.
Defined.





(** C2 (as the spec words it, refuted): a configuration with itemHeight 0 is
    accepted, and once the viewport of height 200 is measured visibleCount is
    Infinity; one with itemHeight -20 is accepted too, and its paddingBottom
    is -2160. *)
Lemma construction_counterexample :
  let el := Element.mk (of_Z 0) (of_Z 200) in
  let zero := Options.mk (seq 0 100) (Some el) (of_Z 0) (Some (of_Z 1)) in
  let neg := Options.mk (seq 0 100) (Some el) (of_Z (-20)) (Some (of_Z 1)) in
  (Options.itemHeight zero <=? of_Z 0) = true /\
  (Options.itemHeight neg <=? of_Z 0) = true /\
  ~ (forall cfg : Options.t nat,
       (Options.itemHeight cfg <=? of_Z 0) = true ->
       exists msg, useVirtualScroller cfg = Throw msg) /\
  (exists s, useVirtualScroller zero = Normal s /\
             visibleCount (onMounted s) = Infinity) /\
  (exists s, useVirtualScroller neg = Normal s /\
             paddingBottom (onMounted s) = of_Z (-2160)).
Proof.
  intros el zero neg.
  split; [reflexivity|]. split; [reflexivity|]. split; [|split].
  - intros H. destruct (H zero eq_refl) as [msg Hmsg]. discriminate Hmsg.
  - eexists. split; [reflexivity|]. vm_compute. reflexivity.
  - eexists. split; [reflexivity|]. vm_compute. reflexivity.
Qed.

(** C2 (amended): construction is never rejected: for every configuration,
    itemHeight <= 0 included, [useVirtualScroller] returns its scroller, with
    the options as given (overscan 2 when left out) and scrollTop and
    containerHeight at 0. *)
Theorem construction_always_succeeds {T : Type} (cfg : Options.t T) :
  exists s,
    useVirtualScroller cfg = Normal s /\
    items s = Options.items cfg /\
    containerRef s = Options.containerRef cfg /\
    itemHeight s = Options.itemHeight cfg /\
    overscan s = match Options.overscan cfg with
                 | Some n => n
                 | None => of_Z 2
                 end /\
    scrollTop s = of_Z 0 /\
    containerHeight s = of_Z 0.
Proof.
  eexists. split; [reflexivity|]. repeat split.
Qed.

(** ** The rendered slice *)

Lemma relativeIndex_bounds (n : number) (len : Z) :
  (0 <= len)%Z -> (0 <= relativeIndex n len <= len)%Z.
Proof.
  intros Hlen. destruct n as [q| | |]; simpl; try lia.
  destruct (Z.ltb_spec (Qtruncate q) 0); lia.
Qed.

Lemma visibleItems_formula {T : Type} (l : list T) r h o top size :
  (0 < h)%Q -> (0 <= size)%Q -> (0 <= o)%Z ->
  let k := Z.min (startZ h o top) (Z.of_nat (length l)) in
  visibleItems (window l r h o top size)
  = firstn (Z.to_nat (endZ l h o top size - k)) (skipn (Z.to_nat k) l).
Proof.
  intros Hh Hsize Ho k.
  pose proof (endZ_bounds l h o top size Hh Hsize Ho) as Hb.
  unfold visibleItems.
  rewrite (slice_int _ _ _ _ _ (startIndex_int l r h o top size Hh)
             (endIndex_int l r h o top size Hh)
             (startZ_nonneg h o top) (proj1 Hb)).
  simpl. fold k. f_equal. lia.
Qed.

(** The rendered slice is a contiguous segment of the items, in their order,
    whatever the numbers involved (NaN, infinite or negative included). *)
Theorem visibleItems_segment {T : Type} (s : Scroller T) :
  exists before after : list T,
    items s = before ++ visibleItems s ++ after /\
    (length (visibleItems s) <= length (items s))%nat.
Proof.
  unfold visibleItems, slice.
  set (len := Z.of_nat (length (items s))).
  set (k := Z.to_nat (relativeIndex (startIndex s) len)).
  set (n := Z.to_nat (Z.max (relativeIndex (endIndex s) len - _) 0)).
  exists (firstn k (items s)), (skipn n (skipn k (items s))).
  split.
  - rewrite (firstn_skipn n). rewrite (firstn_skipn k). reflexivity.
  - rewrite length_firstn, length_skipn. lia.
Qed.

(** For finite nonnegative inputs and a positive item height the number of
    rendered items is max(0, endIndex - startIndex). *)
Theorem visibleItems_count {T : Type} (l : list T) r h o top size :
  (0 <= top)%Q -> (0 <= size)%Q -> (0 <= o)%Z -> (0 < h)%Q ->
  let s := window l r h o top size in
  exists a b : Z,
    is_int (startIndex s) a /\ is_int (endIndex s) b /\
    Z.of_nat (length (visibleItems s)) = Z.max 0 (b - a).
Proof.
  intros Htop Hsize Ho Hh s.
  exists (startZ h o top), (endZ l h o top size).
  split; [apply startIndex_int, Hh|]. split; [apply endIndex_int, Hh|].
  pose proof (endZ_bounds l h o top size Hh Hsize Ho) as Hb.
  pose proof (startZ_nonneg h o top) as H0.
  unfold s. rewrite (visibleItems_formula l r h o top size Hh Hsize Ho).
  rewrite length_firstn, length_skipn. lia.
Qed.

Lemma visibleItems_count_witness :
  let s := window (seq 0 100) None 20 1 400 200 in
  exists a b : Z,
    is_int (startIndex s) a /\ is_int (endIndex s) b /\
    Z.of_nat (length (visibleItems s)) = Z.max 0 (b - a).
Proof.
  apply (visibleItems_count (seq 0 100) None 20 1 400 200).
  - discriminate.
  - discriminate.
  - lia.
  - reflexivity.
Defined.

(** The k-th rendered item is the item at index startIndex + k. *)
Theorem visibleItems_nth {T : Type} (l : list T) r h o top size :
  (0 <= top)%Q -> (0 <= size)%Q -> (0 <= o)%Z -> (0 < h)%Q ->
  let s := window l r h o top size in
  exists a : Z,
    is_int (startIndex s) a /\ (0 <= a)%Z /\
    forall k : nat,
      (k < length (visibleItems s))%nat ->
      nth_error (visibleItems s) k = nth_error l (Z.to_nat a + k).
Proof.
  intros Htop Hsize Ho Hh s.
  exists (startZ h o top).
  split; [apply startIndex_int, Hh|].
  pose proof (startZ_nonneg h o top) as H0. split; [exact H0|].
  pose proof (endZ_bounds l h o top size Hh Hsize Ho) as Hb.
  unfold s. rewrite (visibleItems_formula l r h o top size Hh Hsize Ho).
  intros k Hk. rewrite length_firstn, length_skipn in Hk.
  rewrite nth_error_firstn, nth_error_skipn.
  destruct (Nat.ltb_spec k
              (Z.to_nat (endZ l h o top size
                         - Z.min (startZ h o top) (Z.of_nat (length l)))));
    [|lia].
  f_equal. lia.
Qed.

Lemma visibleItems_nth_witness :
  let s := window (seq 0 100) None 20 1 400 200 in
  nth_error (visibleItems s) 3 = Some 22%nat.
Proof.
  intros s.
  assert (Htop : (0 <= 400)%Q) by discriminate.
  assert (Hsize : (0 <= 200)%Q) by discriminate.
  assert (Ho : (0 <= 1)%Z) by lia.
  assert (Hh : (0 < 20)%Q) by reflexivity.
  destruct (visibleItems_nth (seq 0 100) None 20 1 400 200 Htop Hsize Ho Hh)
    as (a & Ha & _ & Hnth).
  assert (Ea : a = 19%Z).
  { apply (inject_Z_injective a 19). symmetry. exact Ha. }
  subst a. apply (Hnth 3%nat). vm_compute. lia.
Defined.

(** The number of rendered items never exceeds visibleCount + 2 * overscan,
    however long the list is. *)
Theorem rendered_items_bounded {T : Type} (l : list T) r h o top size :
  (0 <= top)%Q -> (0 <= size)%Q -> (0 <= o)%Z -> (0 < h)%Q ->
  let s := window l r h o top size in
  exists c : Z,
    is_int (visibleCount s) c /\
    (Z.of_nat (length (visibleItems s)) <= c + 2 * o)%Z.
Proof.
  intros Htop Hsize Ho Hh s.
  exists (countZ h size). split; [apply visibleCount_int, Hh|].
  pose proof (countZ_nonneg h size Hh Hsize) as Hc.
  pose proof (startZ_nonneg h o top) as H0.
  unfold s. rewrite (visibleItems_formula l r h o top size Hh Hsize Ho).
  rewrite length_firstn, length_skipn. unfold endZ. lia.
Qed.

Lemma rendered_items_bounded_witness :
  let s := window (seq 0 100) None 20 1 400 200 in
  exists c : Z,
    is_int (visibleCount s) c /\
    (Z.of_nat (length (visibleItems s)) <= c + 2 * 1)%Z.
Proof.
  apply (rendered_items_bounded (seq 0 100) None 20 1 400 200).
  - discriminate.
  - discriminate.
  - lia.
  - reflexivity.
Defined.

(** ** The window against the viewport *)

(** For whole-pixel inputs up to 2^53 and overscan >= 1, every item of the
    list that intersects the viewport [scrollOffset, scrollOffset +
    viewportSize) lies in the rendered range [startIndex, endIndex). *)
Theorem viewport_covered {T : Type} (l : list T) r (h o top size i : Z) :
  (0 <= top <= exact_limit)%Z -> (0 <= size <= exact_limit)%Z ->
  (1 <= o <= exact_limit)%Z -> (1 <= h <= exact_limit)%Z ->
  (0 <= i < Z.of_nat (length l))%Z ->
  (i * h < top + size)%Z -> (top < (i + 1) * h)%Z ->
  let s := window_px l r h o top size in
  (startIndex s <=? of_Z i) = true /\ (of_Z (i + 1) <=? endIndex s) = true.
Proof.
  intros Htop Hsize Ho Hh1 Hi Hlo Hhi s.
  pose proof (inject_Z_pos h (proj1 Hh1)) as Hh.
  assert (Hlo' : (inject_Z i * inject_Z h < inject_Z top + inject_Z size)%Q).
  { rewrite <- inject_Z_mult, <- inject_Z_plus, <- Zlt_Qlt. exact Hlo. }
  assert (Hhi' : (inject_Z top < inject_Z (i + 1) * inject_Z h)%Q).
  { rewrite <- inject_Z_mult, <- Zlt_Qlt. exact Hhi. }
  pose proof (intersecting_item_range _ _ _ i Hh Hlo' Hhi') as Hr.
  split.
  - apply (leb_int _ _ _ _ (startIndex_int l r _ o _ _ Hh) (is_int_of_Z i)).
    unfold startZ. lia.
  - apply (leb_int _ _ _ _ (is_int_of_Z (i + 1))
                           (endIndex_int l r _ o _ _ Hh)).
    unfold endZ, startZ, countZ. lia.
Qed.

Lemma viewport_covered_witness :
  let s := window_px (seq 0 100) None 20 1 410 200 in
  (startIndex s <=? of_Z 30) = true /\ (of_Z (30 + 1) <=? endIndex s) = true.
Proof.
  apply (viewport_covered (seq 0 100) None 20 1 410 200 30);
    unfold exact_limit; simpl; lia.
Defined.

(** For whole-pixel inputs up to 2^53 with overscan 0, a viewport as high as
    m items and a scroll offset that is not a multiple of the item height,
    the item that crosses the bottom edge of the viewport (index
    floor(scrollOffset / itemHeight) + m) is not rendered: endIndex is that
    very index. *)
Theorem bottom_item_missed_without_overscan {T : Type} (l : list T) r
  (h top m : Z) :
  (0 <= top <= exact_limit)%Z -> (0 <= m)%Z -> (1 <= h)%Z ->
  (m * h <= exact_limit)%Z -> (top mod h <> 0)%Z ->
  let i := (top / h + m)%Z in
  (i < Z.of_nat (length l))%Z ->
  let s := window_px l r h 0 top (m * h) in
  (i * h < top + m * h)%Z /\
  (top < (i + 1) * h)%Z /\
  (endIndex s =? of_Z i) = true /\
  (of_Z (i + 1) <=? endIndex s) = false.
Proof.
  intros Htop Hm Hh1 Hmh Hmod i Hi s.
  pose proof (inject_Z_pos h Hh1) as Hh.
  pose proof (Z.div_mod top h ltac:(lia)) as E.
  pose proof (Z.mod_pos_bound top h ltac:(lia)) as B.
  pose proof (Z.div_pos top h (proj1 Htop) ltac:(lia)) as Hf.
  assert (Hc : (- ((- (m * h)) / h))%Z = m).
  { replace (- (m * h))%Z with ((- m) * h)%Z by ring.
    rewrite Z.div_mul by lia. lia. }
  assert (He : endZ l (inject_Z h) 0 (inject_Z top) (inject_Z (m * h)) = i).
  { unfold endZ. rewrite startZ_px, countZ_px, Hc. unfold i. lia. }
  pose proof (endIndex_int l r (inject_Z h) 0 (inject_Z top)
                (inject_Z (m * h)) Hh) as Hend.
  fold (window_px l r h 0 top (m * h)) in Hend. fold s in Hend.
  rewrite He in Hend.
  split; [|split; [|split]].
  - unfold i. nia.
  - unfold i. nia.
  - apply (eqb_int _ _ _ _ Hend (is_int_of_Z i)). reflexivity.
  - apply not_true_is_false. intros H.
    apply (leb_int _ _ _ _ (is_int_of_Z (i + 1)) Hend) in H. lia.
Qed.

Lemma bottom_item_missed_without_overscan_witness :
  let s := window_px (seq 0 100) None 20 0 10 (1 * 20) in
  (endIndex s =? of_Z 1) = true /\ (of_Z 2 <=? endIndex s) = false.
Proof.
  intros s.
  assert (Htop : (0 <= 10 <= exact_limit)%Z) by (unfold exact_limit; lia).
  assert (Hm : (0 <= 1)%Z) by lia.
  assert (Hh : (1 <= 20)%Z) by lia.
  assert (Hmh : (1 * 20 <= exact_limit)%Z) by (unfold exact_limit; lia).
  assert (Hmod : (10 mod 20 <> 0)%Z) by discriminate.
  assert (Hi : (10 / 20 + 1 < Z.of_nat (length (seq 0 100)))%Z)
    by (vm_compute; reflexivity).
  destruct (bottom_item_missed_without_overscan (seq 0 100) None 20 10 1
              Htop Hm Hh Hmh Hmod Hi) as (_ & _ & A & B).
  split; [exact A | exact B].
Defined.

(** For whole-pixel inputs up to 2^53, the top spacer never reaches below
    the viewport's top edge: paddingTop <= scrollOffset. *)
Theorem paddingTop_le_scrollOffset {T : Type} (l : list T) r
  (h o top size : Z) :
  (0 <= top <= exact_limit)%Z -> (0 <= o <= exact_limit)%Z ->
  (1 <= h <= exact_limit)%Z ->
  let s := window_px l r h o top size in
  (paddingTop s <=? scrollTop s) = true.
Proof.
  intros Htop Ho Hh1 s.
  pose proof (inject_Z_pos h (proj1 Hh1)) as Hh.
  apply (leb_num _ _ _ _ (paddingTop_num l r _ o _ _ Hh) (is_num_Num _)).
  rewrite startZ_px, <- inject_Z_mult, <- Zle_Qle.
  pose proof (floor_div_bounds h top (proj1 Hh1)) as B.
  pose proof (Z.div_pos top h (proj1 Htop) ltac:(lia)) as Hf.
  nia.
Qed.

Lemma paddingTop_le_scrollOffset_witness :
  let s := window_px (seq 0 100) None 20 1 410 200 in
  (paddingTop s <=? scrollTop s) = true.
Proof.
  apply (paddingTop_le_scrollOffset (seq 0 100) None 20 1 410 200);
    unfold exact_limit; lia.
Defined.

(** For whole-pixel inputs of magnitude up to 2^53, startIndex is 0 exactly
    for the scroll offsets below (overscan + 1) * itemHeight, negative
    offsets included. *)
Theorem startIndex_zero_iff {T : Type} (l : list T) r (h o top size : Z) :
  (1 <= h <= exact_limit)%Z -> (- exact_limit <= top <= exact_limit)%Z ->
  (- exact_limit <= o <= exact_limit)%Z ->
  ((startIndex (window_px l r h o top size) =? of_Z 0) = true
   <-> (top < (o + 1) * h)%Z).
Proof.
  intros Hh1 Htop Ho.
  pose proof (inject_Z_pos h (proj1 Hh1)) as Hh.
  unfold window_px.
  rewrite (eqb_int _ _ _ _ (startIndex_int l r _ o _ _ Hh) (is_int_of_Z 0)).
  rewrite startZ_px.
  pose proof (floor_div_bounds h top (proj1 Hh1)) as B.
  split; intros H; nia.
Qed.

Lemma startIndex_zero_iff_witness :
  (startIndex (window_px (seq 0 100) None 20 2 (-35) 200) =? of_Z 0) = true.
Proof.
  apply (startIndex_zero_iff (seq 0 100) None 20 2 (-35) 200);
    unfold exact_limit; lia.
Defined.

(** visibleCount never decreases as the viewport grows, and endIndex never
    decreases as the scroll offset or the viewport size grows. *)
Theorem endIndex_monotone {T : Type} (l : list T) r h o
  (top1 top2 size1 size2 : Q) :
  (0 < h)%Q -> (top1 <= top2)%Q -> (size1 <= size2)%Q ->
  (visibleCount (window l r h o top1 size1)
     <=? visibleCount (window l r h o top2 size2)) = true /\
  (endIndex (window l r h o top1 size1)
     <=? endIndex (window l r h o top2 size2)) = true.
Proof.
  intros Hh Htop Hsize.
  pose proof (Qfloor_div_mono top1 top2 h Htop Hh) as Hf.
  assert (Hc : (countZ h size1 <= countZ h size2)%Z).
  { apply Qceiling_resp_le. unfold Qdiv. apply Qmult_le_compat_r.
    - exact Hsize.
    - apply Qlt_le_weak, Qinv_lt_0_compat, Hh. }
  split.
  - apply (leb_int _ _ _ _ (visibleCount_int l r h o top1 size1 Hh)
                           (visibleCount_int l r h o top2 size2 Hh)).
    exact Hc.
  - apply (leb_int _ _ _ _ (endIndex_int l r h o top1 size1 Hh)
                           (endIndex_int l r h o top2 size2 Hh)).
    unfold endZ, startZ. lia.
Qed.

Lemma endIndex_monotone_witness :
  (endIndex (window (seq 0 100) None 20 1 30 100)
     <=? endIndex (window (seq 0 100) None 20 1 65 130)) = true.
Proof.
  apply (endIndex_monotone (seq 0 100) None 20 1 30 65 100 130).
  - reflexivity.
  - discriminate.
  - discriminate.
Defined.

(** For whole-pixel inputs up to 2^53 with itemCount * itemHeight up to
    2^53, the outputs are the whole numbers of integer arithmetic:
    startIndex = max(0, top div h - o), visibleCount = ceil(size / h),
    endIndex = min(len, startIndex + visibleCount + 2 * o),
    paddingTop = startIndex * h <= top and
    paddingBottom = (len - endIndex) * h <= len * h. *)
Theorem outputs_finite {T : Type} (l : list T) r (h o top size : Z) :
  (1 <= h)%Z -> (0 <= top <= exact_limit)%Z ->
  (0 <= size <= exact_limit)%Z -> (0 <= o <= exact_limit)%Z ->
  (Z.of_nat (length l) * h <= exact_limit)%Z ->
  let s := window_px l r h o top size in
  let a := Z.max 0 (top / h - o) in
  let c := (- ((- size) / h))%Z in
  let b := Z.min (Z.of_nat (length l)) (a + c + o * 2) in
  is_int (startIndex s) a /\ is_int (visibleCount s) c /\
  is_int (endIndex s) b /\
  is_int (paddingTop s) (a * h) /\
  is_int (paddingBottom s) ((Z.of_nat (length l) - b) * h) /\
  (0 <= a * h <= top)%Z /\
  (0 <= (Z.of_nat (length l) - b) * h <= Z.of_nat (length l) * h)%Z /\
  (size <= c * h < size + h)%Z.
Proof.
  intros Hh1 Htop Hsize Ho Hlen s a c b.
  pose proof (inject_Z_pos h Hh1) as Hh.
  pose proof (startIndex_int l r (inject_Z h) o (inject_Z top)
                (inject_Z size) Hh) as Hs.
  pose proof (visibleCount_int l r (inject_Z h) o (inject_Z top)
                (inject_Z size) Hh) as Hc.
  pose proof (endIndex_int l r (inject_Z h) o (inject_Z top)
                (inject_Z size) Hh) as He.
  pose proof (paddingTop_num l r (inject_Z h) o (inject_Z top)
                (inject_Z size) Hh) as Hpt.
  pose proof (paddingBottom_num l r (inject_Z h) o (inject_Z top)
                (inject_Z size) Hh) as Hpb.
  unfold endZ in He, Hpb.
  rewrite startZ_px in Hs, He, Hpt, Hpb. rewrite countZ_px in Hc, He, Hpb.
  fold a in Hs, He, Hpt, Hpb. fold c in Hc, He, Hpb. fold b in He, Hpb.
  pose proof (floor_div_bounds h top Hh1) as Bf.
  pose proof (ceil_div_bounds h size Hh1) as Bc. fold c in Bc.
  pose proof (Z.div_pos top h (proj1 Htop) ltac:(lia)) as Hf.
  assert (Hc0 : (0 <= c)%Z) by nia.
  split; [exact Hs|]. split; [exact Hc|]. split; [exact He|].
  split; [unfold is_int; rewrite inject_Z_mult; exact Hpt|].
  split; [unfold is_int; rewrite inject_Z_mult; exact Hpb|].
  split; [unfold a; nia|]. split; [unfold b, a; nia | exact Bc].
Qed.

Lemma outputs_finite_witness :
  is_int (endIndex (window_px (seq 0 100) None 20 1 400 200)) 31.
Proof.
  assert (Hh : (1 <= 20)%Z) by lia.
  assert (Htop : (0 <= 400 <= exact_limit)%Z) by (unfold exact_limit; lia).
  assert (Hsize : (0 <= 200 <= exact_limit)%Z) by (unfold exact_limit; lia).
  assert (Ho : (0 <= 1 <= exact_limit)%Z) by (unfold exact_limit; lia).
  assert (Hlen : (Z.of_nat (length (seq 0 100)) * 20 <= exact_limit)%Z)
    by (vm_compute; discriminate).
  destruct (outputs_finite (seq 0 100) None 20 1 400 200
              Hh Htop Hsize Ho Hlen) as (_ & _ & Hb & _).
  exact Hb.
Defined.

(** ** Degenerate inputs *)

(** With itemHeight 0 and a scroll offset >= 0 nothing is rendered, whatever
    the viewport size and the overscan. *)
Theorem zero_itemHeight_renders_nothing {T : Type} (l : list T) r h o top
  (size : number) :
  (h == 0)%Q -> (0 <= top)%Q ->
  let s := {| items := l; containerRef := r; itemHeight := Num h;
              overscan := of_Z o; scrollTop := Num top;
              containerHeight := size |} in
  visibleItems s = [].
Proof.
  intros Hh Htop s.
  pose proof (relativeIndex_bounds (endIndex s) (Z.of_nat (length l))
                (Zle_0_nat _)) as Hend.
  unfold visibleItems, slice. simpl items.
  assert (Hstart : startIndex s = Infinity \/ startIndex s = NaN).
  { unfold startIndex. simpl. apply Qeq_alt in Hh. rewrite Hh.
    destruct (Qcompare_spec top 0) as [E|L|G]; simpl; auto.
    exfalso. exact (Qlt_not_le _ _ L Htop). }
  destruct Hstart as [E|E].
  - rewrite E. simpl relativeIndex.
    replace (Z.to_nat (Z.max _ 0)) with 0%nat by lia. reflexivity.
  - assert (E' : endIndex s = NaN).
    { unfold endIndex. rewrite E. simpl. reflexivity. }
    rewrite E, E'. reflexivity.
Qed.

Lemma zero_itemHeight_renders_nothing_witness :
  visibleItems {| items := seq 0 100; containerRef := None;
                  itemHeight := Num 0; overscan := of_Z 2;
                  scrollTop := Num 40; containerHeight := Num 200 |} = [].
Proof.
  apply (zero_itemHeight_renders_nothing (seq 0 100) None 0 2 40 (Num 200)).
  - reflexivity.
  - discriminate.
Defined.

(** A NaN scroll offset makes startIndex, endIndex and both spacers NaN and
    the rendered slice empty, for every configuration. *)
Theorem nan_scrollTop_propagates {T : Type} (s : Scroller T) :
  scrollTop s = NaN ->
  startIndex s = NaN /\ endIndex s = NaN /\
  paddingTop s = NaN /\ paddingBottom s = NaN /\ visibleItems s = [].
Proof.
  intros H.
  assert (Es : startIndex s = NaN).
  { unfold startIndex. rewrite H. simpl.
    destruct (overscan s); reflexivity. }
  assert (Ee : endIndex s = NaN).
  { unfold endIndex. rewrite Es. reflexivity. }
  split; [exact Es|]. split; [exact Ee|]. split; [|split].
  - unfold paddingTop. rewrite Es. reflexivity.
  - unfold paddingBottom. rewrite Ee. reflexivity.
  - unfold visibleItems, slice. rewrite Es, Ee. reflexivity.
Qed.

Lemma nan_scrollTop_propagates_witness :
  visibleItems {| items := seq 0 100; containerRef := None;
                  itemHeight := Num 20; overscan := of_Z 2;
                  scrollTop := NaN; containerHeight := Num 200 |} = [].
Proof.
  apply (nan_scrollTop_propagates
           {| items := seq 0 100; containerRef := None;
              itemHeight := Num 20; overscan := of_Z 2;
              scrollTop := NaN; containerHeight := Num 200 |}).
  reflexivity.
Defined.

(** ** scrollToIndex and the window *)

(** For whole-pixel inputs up to 2^53, on a surface that keeps the offset it
    is given, [scrollToIndex i] followed by the surface's scroll notification
    gives startIndex = max(0, i - overscan), and item i of the list is in the
    rendered range when the viewport is at least one pixel high. *)
Theorem scrollToIndex_shows_item {T : Type} (l : list T) (el : Element.t)
  (h o top size i : Z) :
  (1 <= h)%Z -> (0 <= o <= exact_limit)%Z -> (1 <= size <= exact_limit)%Z ->
  (0 <= i < Z.of_nat (length l))%Z -> (i * h <= exact_limit)%Z ->
  let s := window_px l (Some el) h o top size in
  let s' := onScroll (scrollToIndex s (of_Z i)) in
  is_int (scrollTop s') (i * h) /\
  is_int (startIndex s') (Z.max 0 (i - o)) /\
  (startIndex s' <=? of_Z i) = true /\
  (of_Z (i + 1) <=? endIndex s') = true.
Proof.
  intros Hh1 Ho Hsize Hi Hih s s'.
  pose proof (inject_Z_pos h Hh1) as Hh.
  set (el' := Element.mk (of_Z i * Num (inject_Z h))
                         (Element.clientHeight el)).
  change s' with (window l (Some el') (inject_Z h) o
                    (inject_Z i * inject_Z h) (inject_Z size)).
  pose proof (startIndex_int l (Some el') (inject_Z h) o
                (inject_Z i * inject_Z h) (inject_Z size) Hh) as Hs.
  pose proof (endIndex_int l (Some el') (inject_Z h) o
                (inject_Z i * inject_Z h) (inject_Z size) Hh) as He.
  assert (Ef : Qfloor (inject_Z i * inject_Z h / inject_Z h) = i).
  { rewrite <- inject_Z_mult, Qfloor_px. apply Z.div_mul. lia. }
  pose proof (ceil_div_bounds h size Hh1) as Bc.
  assert (Hc : (1 <= countZ (inject_Z h) (inject_Z size))%Z).
  { rewrite countZ_px. nia. }
  assert (Es : startZ (inject_Z h) o (inject_Z i * inject_Z h)
               = Z.max 0 (i - o)).
  { unfold startZ. rewrite Ef. reflexivity. }
  split; [|split; [|split]].
  - unfold is_int. simpl. rewrite inject_Z_mult. reflexivity.
  - rewrite <- Es. exact Hs.
  - apply (leb_int _ _ _ _ Hs (is_int_of_Z i)). lia.
  - apply (leb_int _ _ _ _ (is_int_of_Z (i + 1)) He).
    unfold endZ. lia.
Qed.

Lemma scrollToIndex_shows_item_witness :
  let s := window_px (seq 0 100) (Some (Element.mk (of_Z 0) (of_Z 200)))
             20 2 0 200 in
  let s' := onScroll (scrollToIndex s (of_Z 50)) in
  is_int (scrollTop s') (50 * 20) /\
  is_int (startIndex s') (Z.max 0 (50 - 2)) /\
  (startIndex s' <=? of_Z 50) = true /\
  (of_Z (50 + 1) <=? endIndex s') = true.
Proof.
  apply (scrollToIndex_shows_item (seq 0 100)
           (Element.mk (of_Z 0) (of_Z 200)) 20 2 0 200 50);
    unfold exact_limit; simpl; lia.
Defined.

(** ** Listener registration: the store and the listener lists *)

Lemma update_length (i : nat) (f : Dom.node -> Dom.node) (ns : list Dom.node) :
  length (Dom.update i f ns) = length ns.
Proof.
  revert i. induction ns as [|n rest IH]; intros [|j]; simpl; auto.
Qed.

Lemma update_nth_same (i : nat) (f : Dom.node -> Dom.node)
  (ns : list Dom.node) :
  nth_error (Dom.update i f ns) i = option_map f (nth_error ns i).
Proof.
  revert i. induction ns as [|n rest IH]; intros [|j]; simpl; auto.
Qed.

Lemma update_nth_other (i k : nat) (f : Dom.node -> Dom.node)
  (ns : list Dom.node) :
  i <> k -> nth_error (Dom.update i f ns) k = nth_error ns k.
Proof.
  revert i k. induction ns as [|n rest IH]; intros [|j] [|k] H; simpl;
    try reflexivity.
  - contradiction.
  - apply IH. congruence.
Qed.

Lemma update_update (i : nat) (f g : Dom.node -> Dom.node)
  (ns : list Dom.node) :
  Dom.update i g (Dom.update i f ns) = Dom.update i (fun n => g (f n)) ns.
Proof.
  revert i. induction ns as [|n rest IH]; intros [|j]; simpl; auto.
  f_equal. apply IH.
Qed.

Lemma update_fixed (i : nat) (f : Dom.node -> Dom.node) (ns : list Dom.node)
  (n : Dom.node) :
  nth_error ns i = Some n -> f n = n -> Dom.update i f ns = ns.
Proof.
  revert i. induction ns as [|m rest IH]; intros [|j]; simpl; try discriminate.
  - intros [= ->] ->. reflexivity.
  - intros H1 H2. f_equal. apply IH; assumption.
Qed.

Lemma update_elements (i : nat) (f : Dom.node -> Dom.node)
  (ns : list Dom.node) :
  (forall n, Dom.element (f n) = Dom.element n) ->
  map Dom.element (Dom.update i f ns) = map Dom.element ns.
Proof.
  intros Hf. revert i.
  induction ns as [|n rest IH]; intros [|j]; simpl; auto.
  - rewrite Hf. reflexivity.
  - f_equal. apply IH.
Qed.

Lemma listens_true (c : Dom.callback) (ls : list Dom.callback) :
  Dom.listens c ls = true <-> In c ls.
Proof.
  unfold Dom.listens. destruct (in_dec Dom.callback_eq_dec c ls); split;
    intros H; try assumption; try reflexivity; try discriminate.
  contradiction.
Qed.

Lemma listens_false (c : Dom.callback) (ls : list Dom.callback) :
  Dom.listens c ls = false <-> ~ In c ls.
Proof.
  rewrite <- listens_true. destruct (Dom.listens c ls); split; intros H;
    try discriminate; try reflexivity.
  exfalso. apply H. reflexivity.
Qed.

Lemma in_addEventListener (c d : Dom.callback) (ls : list Dom.callback) :
  In d (Dom.addEventListener c ls) <-> d = c \/ In d ls.
Proof.
  unfold Dom.addEventListener.
  destruct (in_dec Dom.callback_eq_dec c ls) as [Hin|Hout].
  - split; [auto|]. intros [->|H]; assumption.
  - rewrite in_app_iff. simpl. split.
    + intros [H|[H|[]]]; auto.
    + intros [H|H]; auto.
Qed.

Lemma in_removeEventListener (c d : Dom.callback) (ls : list Dom.callback) :
  In d (Dom.removeEventListener c ls) <-> In d ls /\ d <> c.
Proof.
  unfold Dom.removeEventListener. split.
  - apply in_remove.
  - intros [H1 H2]. apply in_in_remove; assumption.
Qed.

Lemma remove_added (c : Dom.callback) (ls : list Dom.callback) :
  ~ In c ls -> Dom.removeEventListener c (Dom.addEventListener c ls) = ls.
Proof.
  intros Hout. unfold Dom.addEventListener, Dom.removeEventListener.
  destruct (in_dec Dom.callback_eq_dec c ls) as [Hin|_]; [contradiction|].
  rewrite remove_app. simpl.
  destruct (Dom.callback_eq_dec c c) as [_|Hne]; [|congruence].
  rewrite app_nil_r. apply notin_remove. exact Hout.
Qed.

Lemma scrollListeners_update {T : Type} (p : Page.t T) (i k : nat)
  (f : Dom.node -> Dom.node) :
  Page.scrollListeners (Page.set_nodes p (Dom.update i f (Page.nodes p))) k
  = if Nat.eqb k i
    then match nth_error (Page.nodes p) i with
         | Some n => Dom.scroll (f n)
         | None => []
         end
    else Page.scrollListeners p k.
Proof.
  unfold Page.scrollListeners. simpl.
  destruct (Nat.eqb_spec k i) as [->|Hne].
  - rewrite update_nth_same. destruct (nth_error (Page.nodes p) i); reflexivity.
  - rewrite update_nth_other by congruence. reflexivity.
Qed.

(** ** Listener registration: the hooks *)

Lemma onMounted_attached {T : Type} (p : Page.t T) (i : nat) (n : Dom.node) :
  Page.containerRef p = Some i -> nth_error (Page.nodes p) i = Some n ->
  Page.onMounted p
  = Page.mk
      (Dom.update i (Page.add_scroll Dom.OnScroll) (Page.nodes p))
      (Dom.addEventListener Dom.OnResize (Page.resize p))
      (Some i) (Page.items p) (Page.itemHeight p) (Page.overscan p)
      (Page.scrollTop p) (Element.clientHeight (Dom.element n)).
Proof.
  intros Hr Hn. unfold Page.onMounted, Page.current. rewrite Hr, Hn.
  unfold Page.set_resize, Page.set_nodes, Page.set_containerHeight. simpl.
  rewrite Hr. reflexivity.
Qed.

(** Mounting on a surface and unmounting while [containerRef] still holds it
    leaves every listener list as it was before the mount, and afterwards no
    scroll or resize event changes the scroller. *)
Theorem mount_unmount_restores_listeners {T : Type} (p : Page.t T) (i : nat)
  (n : Dom.node) :
  Page.containerRef p = Some i -> nth_error (Page.nodes p) i = Some n ->
  ~ In Dom.OnScroll (Dom.scroll n) -> ~ In Dom.OnResize (Page.resize p) ->
  let p' := Page.onUnmounted (Page.onMounted p) in
  Page.nodes p' = Page.nodes p /\ Page.resize p' = Page.resize p /\
  (forall v, Page.scrollTop (Page.userScroll p' i v) = Page.scrollTop p) /\
  (forall k v,
     Page.containerHeight (Page.layoutResize p' k v)
     = Page.containerHeight p').
Proof.
  intros Hr Hn Hs Hw p'.
  assert (Ep : p' = Page.set_containerHeight p
                      (Element.clientHeight (Dom.element n))).
  { unfold p'. rewrite (onMounted_attached p i n Hr Hn).
    unfold Page.onUnmounted. simpl.
    unfold Page.set_resize, Page.set_nodes, Page.set_containerHeight. simpl.
    rewrite update_update, (remove_added _ _ Hw).
    rewrite (update_fixed i _ (Page.nodes p) n Hn).
    - rewrite Hr. reflexivity.
    - unfold Page.remove_scroll, Page.add_scroll. simpl.
      rewrite (remove_added _ _ Hs). destruct n; reflexivity. }
  rewrite Ep. simpl.
  split; [reflexivity|]. split; [reflexivity|].
  assert (Hscroll : forall v,
             Page.userScroll
               (Page.set_containerHeight p
                  (Element.clientHeight (Dom.element n))) i v
             = Page.set_nodes
                 (Page.set_containerHeight p
                    (Element.clientHeight (Dom.element n)))
                 (Dom.update i
                    (fun m =>
                       Dom.mkNode
                         (Element.mk v (Element.clientHeight (Dom.element m)))
                         (Dom.scroll m))
                    (Page.nodes p))).
  { intros v. unfold Page.userScroll, Page.scrollEvent. simpl.
    rewrite update_nth_same, Hn. simpl.
    apply listens_false in Hs. rewrite Hs. reflexivity. }
  split.
  - intros v. rewrite Hscroll. reflexivity.
  - intros k v. unfold Page.layoutResize, Page.resizeEvent. simpl.
    apply listens_false in Hw. rewrite Hw. reflexivity.
Qed.

Lemma mount_unmount_restores_listeners_witness :
  let n := Dom.mkNode (Element.mk (of_Z 0) (of_Z 200)) [Dom.Foreign 7] in
  let p := Page.mk [n] [Dom.Foreign 3] (Some 0%nat) (seq 0 100)
             (of_Z 20) (of_Z 2) (of_Z 0) (of_Z 0) in
  let p' := Page.onUnmounted (Page.onMounted p) in
  Page.nodes p' = Page.nodes p /\ Page.resize p' = Page.resize p.
Proof.
  intros n p p'.
  assert (Hs : ~ In Dom.OnScroll (Dom.scroll n)).
  { simpl. intros [H|[]]. discriminate H. }
  assert (Hw : ~ In Dom.OnResize (Page.resize p)).
  { simpl. intros [H|[]]. discriminate H. }
  destruct (mount_unmount_restores_listeners p 0 n eq_refl eq_refl Hs Hw)
    as (A & B & _).
  split; [exact A | exact B].
Defined.

(** When [containerRef] is already null at unmount (the surface was detached
    first, the watcher having run), [onUnmounted] removes nothing: the scroll
    listener is gone from the surface through the watcher, but [window] keeps
    the resize listener registered by [onMounted]. *)
Theorem unmount_after_detach_keeps_resize_listener {T : Type} (p : Page.t T)
  (i : nat) (n : Dom.node) :
  Page.containerRef p = Some i -> nth_error (Page.nodes p) i = Some n ->
  let p' :=
    Page.onUnmounted (Page.assignContainerRef (Page.onMounted p) None) in
  Page.containerRef p' = None /\
  Dom.listens Dom.OnResize (Page.resize p') = true /\
  Dom.listens Dom.OnScroll (Page.scrollListeners p' i) = false.
Proof.
  intros Hr Hn p'. unfold p'.
  rewrite (onMounted_attached p i n Hr Hn).
  unfold Page.assignContainerRef. simpl.
  unfold Page.watchCallback. simpl. unfold Page.onUnmounted. simpl.
  split; [reflexivity|]. split.
  - apply listens_true, in_addEventListener. left. reflexivity.
  - apply listens_false.
    unfold Page.scrollListeners. simpl.
    rewrite update_update, update_nth_same, Hn. simpl.
    apply remove_In.
Qed.

Lemma unmount_after_detach_keeps_resize_listener_witness :
  let n := Dom.mkNode (Element.mk (of_Z 0) (of_Z 200)) [] in
  let p := Page.mk [n] [] (Some 0%nat) (seq 0 100)
             (of_Z 20) (of_Z 2) (of_Z 0) (of_Z 0) in
  Dom.listens Dom.OnResize
    (Page.resize
       (Page.onUnmounted (Page.assignContainerRef (Page.onMounted p) None)))
  = true.
Proof.
  intros n p.
  destruct (unmount_after_detach_keeps_resize_listener p 0 n eq_refl eq_refl)
    as (_ & A & _).
  exact A.
Defined.

(** When [containerRef] moves from one surface to another, the watcher takes
    the scroll listener off the old surface, puts it on the new one and samples
    the new surface's height; the listeners of [window] and the elements'
    layout are untouched. *)
Theorem watcher_switches_surface {T : Type} (p : Page.t T) (i j : nat)
  (n m : Dom.node) :
  Page.containerRef p = Some i -> i <> j ->
  nth_error (Page.nodes p) i = Some n -> nth_error (Page.nodes p) j = Some m ->
  let p' := Page.assignContainerRef p (Some j) in
  Page.containerRef p' = Some j /\
  Page.containerHeight p' = Element.clientHeight (Dom.element m) /\
  Page.scrollTop p' = Page.scrollTop p /\
  Page.resize p' = Page.resize p /\
  map Dom.element (Page.nodes p') = map Dom.element (Page.nodes p) /\
  Dom.listens Dom.OnScroll (Page.scrollListeners p' i) = false /\
  Dom.listens Dom.OnScroll (Page.scrollListeners p' j) = true.
Proof.
  intros Hr Hij Hn Hm p'. unfold p', Page.assignContainerRef.
  rewrite Hr. simpl.
  destruct (Nat.eqb_spec j i) as [E|_]; [congruence|].
  unfold Page.watchCallback. simpl.
  rewrite (update_nth_other i j) by exact Hij. rewrite Hm. simpl.
  split; [reflexivity|]. split; [reflexivity|]. split; [reflexivity|].
  split; [reflexivity|]. split; [|split].
  - rewrite !update_elements; reflexivity.
  - apply listens_false. unfold Page.scrollListeners. simpl.
    rewrite (update_nth_other j i) by congruence.
    rewrite update_nth_same, Hn. simpl. apply remove_In.
  - apply listens_true. unfold Page.scrollListeners. simpl.
    rewrite update_nth_same, (update_nth_other i j) by exact Hij.
    rewrite Hm. simpl. apply in_addEventListener. left. reflexivity.
Qed.

Lemma watcher_switches_surface_witness :
  let n := Dom.mkNode (Element.mk (of_Z 0) (of_Z 200)) [Dom.OnScroll] in
  let m := Dom.mkNode (Element.mk (of_Z 40) (of_Z 300)) [] in
  let p := Page.mk [n; m] [Dom.OnResize] (Some 0%nat) (seq 0 100)
             (of_Z 20) (of_Z 2) (of_Z 0) (of_Z 200) in
  let p' := Page.assignContainerRef p (Some 1%nat) in
  Page.containerHeight p' = of_Z 300 /\
  Dom.listens Dom.OnScroll (Page.scrollListeners p' 0) = false /\
  Dom.listens Dom.OnScroll (Page.scrollListeners p' 1) = true.
Proof.
  intros n m p p'.
  assert (Hij : 0%nat <> 1%nat) by discriminate.
  destruct (watcher_switches_surface p 0 1 n m eq_refl Hij eq_refl eq_refl)
    as (_ & A & _ & _ & _ & B & C).
  split; [exact A | split; [exact B | exact C]].
Defined.

(** On a mounted surface the composable follows the surface: a scroll to
    offset [v] puts [v] in [scrollTop], a layout to height [v] followed by the
    window's resize event puts [v] in [containerHeight]. *)
Theorem mounted_surface_is_followed {T : Type} (p : Page.t T) (i : nat)
  (n : Dom.node) (v : number) :
  Page.containerRef p = Some i -> nth_error (Page.nodes p) i = Some n ->
  Page.containerHeight (Page.onMounted p)
  = Element.clientHeight (Dom.element n) /\
  Page.scrollTop (Page.userScroll (Page.onMounted p) i v) = v /\
  Page.containerHeight (Page.layoutResize (Page.onMounted p) i v) = v.
Proof.
  intros Hr Hn. rewrite (onMounted_attached p i n Hr Hn).
  split; [reflexivity|]. split.
  - unfold Page.userScroll, Page.scrollEvent. simpl.
    rewrite ?update_update, update_nth_same, Hn. simpl.
    assert (H : Dom.listens Dom.OnScroll
                  (Dom.addEventListener Dom.OnScroll (Dom.scroll n)) = true).
    { apply listens_true, in_addEventListener. left. reflexivity. }
    rewrite H. unfold Page.onScroll, Page.current. simpl.
    rewrite ?update_update, update_nth_same, Hn. reflexivity.
  - unfold Page.layoutResize, Page.resizeEvent. simpl.
    assert (H : Dom.listens Dom.OnResize
                  (Dom.addEventListener Dom.OnResize (Page.resize p)) = true).
    { apply listens_true, in_addEventListener. left. reflexivity. }
    rewrite H. unfold Page.onResize, Page.current. simpl.
    rewrite ?update_update, update_nth_same, Hn. reflexivity.
Qed.

Lemma mounted_surface_is_followed_witness :
  let n := Dom.mkNode (Element.mk (of_Z 0) (of_Z 200)) [] in
  let p := Page.mk [n] [] (Some 0%nat) (seq 0 100)
             (of_Z 20) (of_Z 2) (of_Z 0) (of_Z 0) in
  Page.scrollTop (Page.userScroll (Page.onMounted p) 0 (of_Z 400)) = of_Z 400.
Proof.
  intros n p.
  destruct (mounted_surface_is_followed p 0 n (of_Z 400) eq_refl eq_refl)
    as (_ & A & _).
  exact A.
Defined.

(** A composable mounted while [containerRef] is null registers nothing; when
    a surface is attached later the watcher registers the scroll listener and
    samples the height, but nobody registers the resize listener: scrolls are
    followed, later changes of the surface's height are not. *)
Theorem late_attach_misses_resize {T : Type} (p : Page.t T) (i : nat)
  (n : Dom.node) (v : number) :
  Page.containerRef p = None -> nth_error (Page.nodes p) i = Some n ->
  ~ In Dom.OnResize (Page.resize p) ->
  let p' := Page.assignContainerRef (Page.onMounted p) (Some i) in
  Page.resize p' = Page.resize p /\
  Page.containerHeight p' = Element.clientHeight (Dom.element n) /\
  Page.scrollTop (Page.userScroll p' i v) = v /\
  Page.containerHeight (Page.layoutResize p' i v)
  = Element.clientHeight (Dom.element n).
Proof.
  intros Hr Hn Hw p'.
  assert (Em : Page.onMounted p = p).
  { unfold Page.onMounted. rewrite Hr. reflexivity. }
  unfold p'. rewrite Em. unfold Page.assignContainerRef. rewrite Hr. simpl.
  unfold Page.watchCallback. simpl. rewrite Hn. simpl.
  split; [reflexivity|]. split; [reflexivity|]. split.
  - unfold Page.userScroll, Page.scrollEvent. simpl.
    rewrite ?update_update, update_nth_same, Hn. simpl.
    assert (H : Dom.listens Dom.OnScroll
                  (Dom.addEventListener Dom.OnScroll (Dom.scroll n)) = true).
    { apply listens_true, in_addEventListener. left. reflexivity. }
    rewrite H. unfold Page.onScroll, Page.current. simpl.
    rewrite ?update_update, update_nth_same, Hn. reflexivity.
  - unfold Page.layoutResize, Page.resizeEvent. simpl.
    apply listens_false in Hw. rewrite Hw. reflexivity.
Qed.

Lemma late_attach_misses_resize_witness :
  let n := Dom.mkNode (Element.mk (of_Z 0) (of_Z 200)) [] in
  let p := Page.mk [n] [] None (seq 0 100)
             (of_Z 20) (of_Z 2) (of_Z 0) (of_Z 0) in
  let p' := Page.assignContainerRef (Page.onMounted p) (Some 0%nat) in
  Page.containerHeight (Page.layoutResize p' 0 (of_Z 500)) = of_Z 200.
Proof.
  intros n p p'.
  assert (Hw : ~ In Dom.OnResize (Page.resize p)) by (intros []).
  destruct (late_attach_misses_resize p 0 n (of_Z 500) eq_refl eq_refl Hw)
    as (_ & _ & _ & A).
  exact A.
Defined.

(** The hooks add and remove only the composable's own two closures: a
    listener of other code is registered on an element or on [window] after
    [onMounted], [onUnmounted] or a change of [containerRef] exactly when it
    was before. *)
Theorem foreign_listeners_untouched {T : Type} (p : Page.t T)
  (r : option nat) (k c : nat) :
  let kept (p' : Page.t T) :=
    (In (Dom.Foreign c) (Page.scrollListeners p' k)
     <-> In (Dom.Foreign c) (Page.scrollListeners p k)) /\
    (In (Dom.Foreign c) (Page.resize p')
     <-> In (Dom.Foreign c) (Page.resize p)) in
  kept (Page.onMounted p) /\ kept (Page.onUnmounted p) /\
  kept (Page.assignContainerRef p r).
Proof.
  assert (Hadd : forall c' ls, c' = Dom.OnScroll \/ c' = Dom.OnResize ->
            (In (Dom.Foreign c) (Dom.addEventListener c' ls)
             <-> In (Dom.Foreign c) ls)).
  { intros c' ls Hc. rewrite in_addEventListener. split; [|auto].
    intros [E|H]; [|exact H]. destruct Hc; subst c'; discriminate E. }
  assert (Hrem : forall c' ls, c' = Dom.OnScroll \/ c' = Dom.OnResize ->
            (In (Dom.Foreign c) (Dom.removeEventListener c' ls)
             <-> In (Dom.Foreign c) ls)).
  { intros c' ls Hc. rewrite in_removeEventListener. split; [tauto|].
    intros H. split; [exact H|]. destruct Hc; subst c'; discriminate. }
  assert (Hupd_add : forall (q : Page.t T) i,
            In (Dom.Foreign c)
              (Page.scrollListeners
                 (Page.set_nodes q
                    (Dom.update i (Page.add_scroll Dom.OnScroll)
                       (Page.nodes q))) k)
            <-> In (Dom.Foreign c) (Page.scrollListeners q k)).
  { intros q i. rewrite scrollListeners_update.
    destruct (Nat.eqb_spec k i) as [->|_]; [|reflexivity].
    unfold Page.scrollListeners.
    destruct (nth_error (Page.nodes q) i); [|reflexivity].
    simpl. apply Hadd. left. reflexivity. }
  assert (Hupd_rem : forall (q : Page.t T) i,
            In (Dom.Foreign c)
              (Page.scrollListeners
                 (Page.set_nodes q
                    (Dom.update i (Page.remove_scroll Dom.OnScroll)
                       (Page.nodes q))) k)
            <-> In (Dom.Foreign c) (Page.scrollListeners q k)).
  { intros q i. rewrite scrollListeners_update.
    destruct (Nat.eqb_spec k i) as [->|_]; [|reflexivity].
    unfold Page.scrollListeners.
    destruct (nth_error (Page.nodes q) i); [|reflexivity].
    simpl. apply Hrem. left. reflexivity. }
  intros kept. unfold kept. split; [|split].
  - unfold Page.onMounted, Page.current.
    destruct (Page.containerRef p) as [i|]; [|tauto].
    destruct (nth_error (Page.nodes p) i) as [n|]; [|tauto].
    split.
    + apply (Hupd_add
               (Page.set_containerHeight p
                  (Element.clientHeight (Dom.element n))) i).
    + simpl. apply Hadd. right. reflexivity.
  - unfold Page.onUnmounted.
    destruct (Page.containerRef p) as [i|]; [|tauto].
    split.
    + apply (Hupd_rem p i).
    + simpl. apply Hrem. right. reflexivity.
  - unfold Page.assignContainerRef.
    destruct (Page.same_element r (Page.containerRef p)); [tauto|].
    unfold Page.watchCallback.
    set (q := Page.set_containerRef p r).
    set (q1 := match Page.containerRef p with
               | Some j =>
                   Page.set_nodes q
                     (Dom.update j (Page.remove_scroll Dom.OnScroll)
                        (Page.nodes q))
               | None => q
               end).
    assert (H1 : (In (Dom.Foreign c) (Page.scrollListeners q1 k)
                  <-> In (Dom.Foreign c) (Page.scrollListeners p k)) /\
                 Page.resize q1 = Page.resize p).
    { unfold q1. destruct (Page.containerRef p) as [j|].
      - split; [apply (Hupd_rem q j) | reflexivity].
      - split; reflexivity. }
    destruct H1 as [H1 H2].
    destruct r as [i|]; [|rewrite H2; tauto].
    destruct (nth_error (Page.nodes q1) i) as [n|]; [|rewrite H2; tauto].
    split.
    + rewrite <- H1.
      apply (Hupd_add
               (Page.set_containerHeight q1
                  (Element.clientHeight (Dom.element n))) i).
    + simpl. rewrite H2. reflexivity.
Qed.

(** ** The hooks and the window *)

Lemma view_onScroll {T : Type} (p : Page.t T) :
  Page.view (Page.onScroll p) = onScroll (Page.view p).
Proof.
  unfold Page.onScroll, onScroll, Page.view. simpl.
  destruct (Page.current p) as [n|] eqn:E; simpl.
  - unfold Page.current in *. simpl. rewrite E. reflexivity.
  - rewrite E. reflexivity.
Qed.

Lemma view_onResize {T : Type} (p : Page.t T) :
  Page.view (Page.onResize p) = onResize (Page.view p).
Proof.
  unfold Page.onResize, onResize, Page.view. simpl.
  destruct (Page.current p) as [n|] eqn:E; simpl.
  - unfold Page.current in *. simpl. rewrite E. reflexivity.
  - rewrite E. reflexivity.
Qed.

Lemma view_scrollToIndex {T : Type} (p : Page.t T) (index : number) :
  Page.view (Page.scrollToIndex p index)
  = scrollToIndex (Page.view p) index.
Proof.
  unfold Page.scrollToIndex, scrollToIndex, Page.view, Page.current. simpl.
  destruct (Page.containerRef p) as [i|] eqn:E; simpl.
  - rewrite E, update_nth_same.
    destruct (nth_error (Page.nodes p) i); reflexivity.
  - rewrite E. reflexivity.
Qed.

(** Mounting on a surface of height [size] and scrolling it to [top] leaves
    the closure's variables as [window] has them: the window theorems speak
    of the composable as it runs on a page. *)
Theorem mounted_scroll_gives_window {T : Type} (p : Page.t T) (i : nat)
  (n : Dom.node) h o top size :
  Page.containerRef p = Some i -> nth_error (Page.nodes p) i = Some n ->
  Element.clientHeight (Dom.element n) = Num size ->
  Page.itemHeight p = Num h -> Page.overscan p = of_Z o ->
  Page.view (Page.userScroll (Page.onMounted p) i (Num top))
  = window (Page.items p) (Some (Element.mk (Num top) (Num size)))
      h o top size.
Proof.
  intros Hr Hn Hsize Hh Ho.
  rewrite (onMounted_attached p i n Hr Hn).
  unfold Page.userScroll, Page.scrollEvent. simpl.
  rewrite update_update, update_nth_same, Hn. simpl.
  assert (H : Dom.listens Dom.OnScroll
                (Dom.addEventListener Dom.OnScroll (Dom.scroll n)) = true).
  { apply listens_true, in_addEventListener. left. reflexivity. }
  rewrite H. unfold Page.onScroll, Page.current. simpl.
  rewrite update_nth_same, Hn. simpl.
  unfold Page.view, Page.current, window. simpl.
  rewrite update_nth_same, Hn. simpl.
  rewrite Hsize, Hh, Ho. reflexivity.
Qed.

Lemma mounted_scroll_gives_window_witness :
  let n := Dom.mkNode (Element.mk (of_Z 0) (of_Z 200)) [] in
  let p := Page.mk [n] [] (Some 0%nat) (seq 0 100)
             (of_Z 20) (of_Z 1) (of_Z 0) (of_Z 0) in
  startIndex (Page.view (Page.userScroll (Page.onMounted p) 0 (of_Z 400)))
  = of_Z 19.
Proof.
  intros n p.
  exact (f_equal startIndex
           (mounted_scroll_gives_window p 0 n 20 1 400 200
              eq_refl eq_refl eq_refl eq_refl eq_refl)).
Defined.

(** ** Evaluation in binary64 *)

(** The three worked scenarios have the same values in binary64. *)
Lemma worked_scenarios_binary64 :
  let a := Double.mk 100 20 1 0 200 in
  let b := Double.mk 100 20 1 400 200 in
  let c := Double.mk 5 20 2 0 500 in
  (Double.visibleCount a = 10 /\ Double.startIndex a = 0 /\
   Double.endIndex a = 12 /\ Double.paddingTop a = 0 /\
   Double.paddingBottom a = 1760)%float /\
  (Double.startIndex b = 19 /\ Double.endIndex b = 31 /\
   Double.paddingTop b = 380 /\ Double.paddingBottom b = 1380)%float /\
  (Double.endIndex c = 5 /\ Double.paddingBottom c = 0)%float.
Proof.
  vm_compute. repeat split.
Qed.

(** At a fractional item height the rounded quotient can reach an item
    boundary that the exact one stays below: with itemHeight 35.6 and
    scrollOffset 106.8 (below 3 * 35.6 in binary64 as in the rationals) the
    quotient is 3, so startIndex is 3 and paddingTop exceeds scrollOffset. *)
Lemma binary64_item_boundary :
  let s := Double.mk 100 0x1.1cccccccccccdp+5 0 0x1.ab33333333333p+6 0 in
  PrimFloat.ltb (Double.scrollTop s) (3 * Double.itemHeight s)%float = true /\
  (Double.scrollTop s / Double.itemHeight s = 3)%float /\
  (Double.startIndex s = 3)%float /\
  PrimFloat.ltb (Double.scrollTop s) (Double.paddingTop s) = true.
Proof.
  vm_compute. repeat split.
Qed.
